(** * django-seal: sealable models and their descriptors

    A shallow embedding of [seal/models.py] together with the part of
    Django's model machinery it drives (class attribute lookup, the app
    registry and its pending operations), and the properties of the
    attribute-interception layer stated over it.

    Layout:
    - Part I    Python values: exceptions, descriptor classes
    - Part II   classes, fields, the app registry (Django side)
    - Part III  [seal/models.py]
    - Part IV   instances, [seal] and guarded attribute access
    - Part V    the models and scenarios of [tests/test_models.py]
    - Part VI   theorems *)

From stdpp Require Import base option list gmap sets strings.
From Stdlib Require Import ZArith.

Open Scope string_scope.
Open Scope list_scope.

(* ===================================================================== *)
(** * Part I: Python values *)
(* ===================================================================== *)

(** Exceptions that the type-level code can meet.  [getattr] raises
    [AttributeError] for a name that is not found and [TypeError] for a
    name that is not a string ([None]). *)
Inductive exn :=
  | AttributeError
  | TypeError.

Inductive result (A : Type) :=
  | Ok (a : A)
  | Raise (e : exn).
Arguments Ok {A} a.
Arguments Raise {A} e.

#[global] Instance result_ret : MRet result := @Ok.
#[global] Instance result_bind : MBind result := λ A B f m,
  match m with
  | Ok a => f a
  | Raise e => Raise e
  end.
#[global] Instance result_fmap : FMap result := λ A B f m,
  match m with
  | Ok a => Ok (f a)
  | Raise e => Raise e
  end.

(** The [__class__] of an object stored in a class [__dict__].  The first
    group are Django's descriptors, the second group the sealable variants
    of [seal/descriptors.py]; anything else (a method, a manager, a
    property) is an [OtherDescriptor]. *)
Inductive descriptor_class :=
  | DeferredAttribute
  | ForwardManyToOneDescriptor
  | ForwardOneToOneDescriptor
  | ReverseOneToOneDescriptor
  | ReverseManyToOneDescriptor
  | ManyToManyDescriptor
  | GenericForeignKey
  | ReverseGenericManyToOneDescriptor
  | SealableDeferredAttribute
  | SealableForwardManyToOneDescriptor
  | SealableForwardOneToOneDescriptor
  | SealableReverseOneToOneDescriptor
  | SealableReverseManyToOneDescriptor
  | SealableManyToManyDescriptor
  | SealableGenericForeignKey
  | SealableReverseGenericManyToOneDescriptor
  | OtherDescriptor (cls : string).

#[global] Instance descriptor_class_eq_dec : EqDecision descriptor_class.
Proof. solve_decision. Defined.

(** Modelled from the spec: the table [sealable_descriptor_classes] is
    imported by [seal/models.py] from [seal/descriptors.py], which is not
    among the sources.  Section 4.2 gives its six attribute kinds (deferred
    field, forward single relation, reverse single relation, many-valued
    relation, generic relation, generic reverse relation); the class names
    of the guarded variants are those [tests/test_models.py] imports, and
    [test_make_non_sealable_model_subclass] fixes which Django descriptor
    each one replaces. *)
Definition sealable_descriptor_classes (c : descriptor_class)
  : option descriptor_class :=
  match c with
  | DeferredAttribute => Some SealableDeferredAttribute
  | ForwardManyToOneDescriptor => Some SealableForwardManyToOneDescriptor
  | ForwardOneToOneDescriptor => Some SealableForwardOneToOneDescriptor
  | ReverseOneToOneDescriptor => Some SealableReverseOneToOneDescriptor
  | ReverseManyToOneDescriptor => Some SealableReverseManyToOneDescriptor
  | ManyToManyDescriptor => Some SealableManyToManyDescriptor
  | GenericForeignKey => Some SealableGenericForeignKey
  | ReverseGenericManyToOneDescriptor =>
      Some SealableReverseGenericManyToOneDescriptor
  | _ => None
  end.

(* ===================================================================== *)
(** * Part II: classes, fields and the app registry *)
(* ===================================================================== *)

(** [field.remote_field]: the relation object of a relation field.
    [rf_model] is the key of the target model (a class or a lazy reference
    in Python, resolved by [lazy_related_operation]); [rf_accessor_name] is
    what [get_accessor_name()] returns ([None] for a symmetrical
    many-to-many on self); [rf_hidden] is [is_hidden()] ([related_name]
    ending in ['+']); [rf_many_to_many] is [field.many_to_many];
    [rf_related_accessor_class] is the class of the reverse descriptor
    that Django installs on the target. *)
Record RemoteField := {
  rf_model : string;
  rf_accessor_name : option string;
  rf_hidden : bool;
  rf_many_to_many : bool;
  rf_related_accessor_class : descriptor_class;
}.

(** A model field.  [descriptor] is the class of the object that the
    field's [contribute_to_class] stores on the model under [name], if it
    stores one. *)
Record Field := {
  name : string;
  descriptor : option descriptor_class;
  remote_field : option RemoteField;
}.

(** [model._meta], as far as [seal/models.py] reads it. *)
Record Options := {
  abstract : bool;
  proxy : bool;
  local_fields : list Field;
  local_many_to_many : list Field;
  private_fields : list Field;
}.

(** A class object: its [__mro__] without the class itself, and [_meta]. *)
Record class_obj := {
  mro : list string;
  _meta : Options;
}.

(** Operations that wait in the app registry for models to be registered.
    [resolve_related_class] is the one Django queues for every relation
    field (it ends in [contribute_to_related_class]);
    [make_remote_field_descriptor_sealable_op] is the one queued by
    [seal/models.py], line 71. *)
Inductive operation :=
  | resolve_related_class (model : string) (remote_field : RemoteField)
  | make_remote_field_descriptor_sealable_op
      (model : string) (remote_field : RemoteField).

(** A pending operation waits for [po_key]; once that model is registered
    it goes on with [po_more]. *)
Record pending := {
  po_key : string;
  po_more : list string;
  po_op : operation;
}.

(** The state of the interpreter that the type-level code reads and
    writes.  Class [__dict__]s are kept in one map keyed by (class,
    attribute name): the entry is the [__class__] of the object stored
    there, which [make_descriptor_sealable] assigns in place.  An
    attribute inherited from a base class is the base's entry, and is
    shared with it. *)
Record world := {
  w_classes : gmap string class_obj;
  w_attrs : gmap (string * string) descriptor_class;
  w_related_objects : gmap string (list RemoteField);
  all_models : gset string;
  pending_operations : list pending;
}.

Definition set_attrs (f : gmap (string * string) descriptor_class →
                          gmap (string * string) descriptor_class)
    (w : world) : world :=
  {| w_classes := w_classes w;
     w_attrs := f (w_attrs w);
     w_related_objects := w_related_objects w;
     all_models := all_models w;
     pending_operations := pending_operations w |}.

Definition set_pending (f : list pending → list pending) (w : world) : world :=
  {| w_classes := w_classes w;
     w_attrs := w_attrs w;
     w_related_objects := w_related_objects w;
     all_models := all_models w;
     pending_operations := f (pending_operations w) |}.

(** Class attribute lookup along [__mro__]: the first class that has the
    name in its own [__dict__] wins.  Returns the owner and the class of
    the object found. *)
Fixpoint mro_lookup (attrs : gmap (string * string) descriptor_class)
    (classes : list string) (attname : string)
  : option (string * descriptor_class) :=
  match classes with
  | [] => None
  | c :: rest =>
      match attrs !! (c, attname) with
      | Some d => Some (c, d)
      | None => mro_lookup attrs rest attname
      end
  end.

Definition linearization (w : world) (model : string) : list string :=
  match w_classes w !! model with
  | Some cls => model :: mro cls
  | None => []
  end.

(** [getattr(model, attname)] on a class; [None] stands for
    [AttributeError]. *)
Definition getattr (w : world) (model attname : string)
  : option (string * descriptor_class) :=
  mro_lookup (w_attrs w) (linearization w model) attname.

(** [issubclass(model, base)]. *)
Definition issubclass (w : world) (model base : string) : bool :=
  bool_decide (base ∈ linearization w model).

Definition SealableModel : string := "SealableModel".

(** Statement sequencing over a list, as a Python [for] loop whose body can
    raise. *)
Fixpoint for_each {A : Type} (body : A → world → result world)
    (l : list A) (w : world) : result world :=
  match l with
  | [] => Ok w
  | x :: rest => w' ← body x w; for_each body rest w'
  end.

(* ===================================================================== *)
(** * Part III: seal/models.py *)
(* ===================================================================== *)

(** [make_descriptor_sealable(model, attname)], lines 30-41.  [attname] is
    a Python value that is a string or [None]: line 50 passes on whatever
    [get_accessor_name()] returned.  [getattr] with a name that is not a
    string raises [TypeError], which the [except AttributeError] clause
    does not catch.  The assignment [descriptor.__class__ = ...] changes
    the object found, which lives in the [__dict__] of its owner. *)
Definition make_descriptor_sealable (model : string) (attname : option string)
    (w : world) : result world :=
  match attname with
  | None => Raise TypeError
  | Some attname =>
      match getattr w model attname with
      | None => Ok w
      | Some (owner, descriptor_cls) =>
          match sealable_descriptor_classes descriptor_cls with
          | Some sealable_descriptor_class =>
              Ok (set_attrs <[(owner, attname) := sealable_descriptor_class]> w)
          | None => Ok w
          end
      end
  end.

(** [make_remote_field_descriptor_sealable(model, related_model,
    remote_field)], lines 44-51. *)
Definition make_remote_field_descriptor_sealable (model related_model : string)
    (remote_field : RemoteField) (w : world) : result world :=
  if negb (issubclass w related_model SealableModel) then Ok w
  else
    let accessor_name := rf_accessor_name remote_field in
    make_descriptor_sealable related_model accessor_name w.

(* --------------------------------------------------------------------- *)
(** ** The app registry (django.apps.registry.Apps) *)
(* --------------------------------------------------------------------- *)

(** [Options.related_objects] of the target gains the relation: Django
    keeps every reverse relation that is not hidden, and the hidden ones
    of many-to-many fields. *)
Definition add_related_object (rf : RemoteField)
    (related_objects : gmap string (list RemoteField))
  : gmap string (list RemoteField) :=
  if negb (rf_hidden rf) || rf_many_to_many rf
  then <[rf_model rf := default [] (related_objects !! rf_model rf) ++ [rf]]>
         related_objects
  else related_objects.

(** [contribute_to_related_class]: Django stores the reverse descriptor on
    the target model unless the relation is hidden, and the relation
    becomes one of the target's [related_objects]. *)
Definition contribute_to_related_class (rf : RemoteField) (w : world)
  : result world :=
  if rf_hidden rf
  then Ok {| w_classes := w_classes w;
             w_attrs := w_attrs w;
             w_related_objects := add_related_object rf (w_related_objects w);
             all_models := all_models w;
             pending_operations := pending_operations w |}
  else
    match rf_accessor_name rf with
    | None => Raise TypeError
    | Some accessor =>
        Ok {| w_classes := w_classes w;
              w_attrs :=
                <[(rf_model rf, accessor) := rf_related_accessor_class rf]>
                  (w_attrs w);
              w_related_objects :=
                add_related_object rf (w_related_objects w);
              all_models := all_models w;
              pending_operations := pending_operations w |}
    end.

(** Calling a queued function once all its models are there. *)
Definition run_operation (op : operation) (w : world) : result world :=
  match op with
  | resolve_related_class model rf => contribute_to_related_class rf w
  | make_remote_field_descriptor_sealable_op model rf =>
      make_remote_field_descriptor_sealable model (rf_model rf) rf w
  end.

(** [Apps.lazy_model_operation(function, *model_keys)]: call the function
    now if every model is registered, otherwise park it under the first
    key that is missing. *)
Fixpoint lazy_model_operation (op : operation) (model_keys : list string)
    (w : world) : result world :=
  match model_keys with
  | [] => run_operation op w
  | next_model :: more_models =>
      if decide (next_model ∈ all_models w)
      then lazy_model_operation op more_models w
      else Ok (set_pending
                 (λ ops, ops ++ [{| po_key := next_model;
                                    po_more := more_models;
                                    po_op := op |}]) w)
  end.

(** [lazy_related_operation(function, model, *related_models)]: the keys
    are the model itself followed by the related models. *)
Definition lazy_related_operation (op : operation) (model related : string)
    (w : world) : result world :=
  lazy_model_operation op [model; related] w.

(** [Apps.do_pending_operations(model)]: pop the operations waiting for the
    model, then resume each of them in the order they were queued. *)
Definition do_pending_operations (model : string) (w : world) : result world :=
  let waiting :=
    filter (λ p, po_key p = model) (pending_operations w) in
  let others :=
    filter (λ p, po_key p ≠ model) (pending_operations w) in
  for_each (λ p, lazy_model_operation (po_op p) (po_more p))
    waiting (set_pending (λ _, others) w).

(** [Apps.register_model]. *)
Definition register_model (model : string) (w : world) : result world :=
  do_pending_operations model
    {| w_classes := w_classes w;
       w_attrs := w_attrs w;
       w_related_objects := w_related_objects w;
       all_models := {[model]} ∪ all_models w;
       pending_operations := pending_operations w |}.

(* --------------------------------------------------------------------- *)
(** ** The class_prepared receiver *)
(* --------------------------------------------------------------------- *)

Definition all_local_fields (opts : Options) : list Field :=
  local_fields opts ++ local_many_to_many opts ++ private_fields opts.

(** The body of the loop at lines 65-73, for one field. *)
Definition make_field_sealable (sender : string) (field : Field) (w : world)
  : result world :=
  w' ← make_descriptor_sealable sender (Some (name field)) w;
  match remote_field field with
  | Some remote_field =>
      lazy_related_operation
        (make_remote_field_descriptor_sealable_op sender remote_field)
        sender (rf_model remote_field) w'
  | None => Ok w'
  end.

(** [make_field_descriptors_sealable(sender)], lines 54-73: the receiver of
    the [class_prepared] signal. *)
Definition make_field_descriptors_sealable (sender : string) (w : world)
  : result world :=
  if negb (issubclass w sender SealableModel) then Ok w
  else
    match w_classes w !! sender with
    | None => Ok w
    | Some cls =>
        let opts := _meta cls in
        if abstract opts || proxy opts then Ok w
        else for_each (make_field_sealable sender) (all_local_fields opts) w
    end.

(** Modelled from the spec: [make_model_sealable] is imported from
    [seal.models] by [tests/test_models.py], but the [seal/models.py]
    among the sources does not define it.  Section 4.5 describes it as the
    body of the type-preparation hook (4.4) run synchronously on a type
    that is already defined: skip abstract and proxy types, wrap every
    local attribute, and hand the reverse side of every relation to the
    deferred half (which runs at once when the target is registered).
    [test_make_non_sealable_model_subclass] calls it on models that do not
    derive from [SealableModel], so it has no opt-in gate and raises no
    error there; the last lines of that test require that it also wraps
    the accessors of the model's own related objects. *)
Definition make_model_sealable (model : string) (w : world) : result world :=
  match w_classes w !! model with
  | None => Ok w
  | Some cls =>
      let opts := _meta cls in
      if abstract opts || proxy opts then Ok w
      else
        w' ← for_each (make_field_sealable model) (all_local_fields opts) w;
        for_each
          (λ related_object,
             make_descriptor_sealable model (rf_accessor_name related_object))
          (default [] (w_related_objects w' !! model)) w'
  end.

(* --------------------------------------------------------------------- *)
(** ** Defining a model class (django.db.models.base.ModelBase) *)
(* --------------------------------------------------------------------- *)

Record model_decl := {
  d_name : string;
  d_mro : list string;
  d_meta : Options;
}.

(** [Field.contribute_to_class]: store the descriptor on the new class; a
    relation field also asks the registry to resolve its target. *)
Definition contribute_to_class (model : string) (field : Field) (w : world)
  : result world :=
  let w' :=
    match descriptor field with
    | Some d => set_attrs <[(model, name field) := d]> w
    | None => w
    end in
  match remote_field field with
  | Some rf =>
      lazy_related_operation (resolve_related_class model rf)
        model (rf_model rf) w'
  | None => Ok w'
  end.

Definition new_class (d : model_decl) (w : world) : world :=
  {| w_classes :=
       <[d_name d := {| mro := d_mro d; _meta := d_meta d |}]> (w_classes w);
     w_attrs := w_attrs w;
     w_related_objects := w_related_objects w;
     all_models := all_models w;
     pending_operations := pending_operations w |}.

(** Sending [class_prepared]: [seal/models.py] connects one receiver. *)
Definition class_prepared (sender : string) (w : world) : result world :=
  make_field_descriptors_sealable sender w.

(** [ModelBase.__new__]: create the class, let every field contribute to
    it, and, unless the model is abstract, send [class_prepared] and
    register the model with the app registry. *)
Definition define_model (d : model_decl) (w : world) : result world :=
  w1 ← for_each (contribute_to_class (d_name d))
         (all_local_fields (d_meta d)) (new_class d w);
  if abstract (d_meta d) then Ok w1
  else
    w2 ← class_prepared (d_name d) w1;
    register_model (d_name d) w2.

(* ===================================================================== *)
(** * Part IV: instances, [seal] and guarded attribute access *)
(* ===================================================================== *)

Inductive value :=
  | VNone
  | VInt (n : Z)
  | VStr (s : string)
  | VObject (model : string) (pk : Z)
  | VRows (rows : list Z).

(** [instance._state]: the [sealed] attribute written by [seal] (absent,
    read as [False], until then) and Django's cache of resolved single
    relations. *)
Record ModelState := {
  sealed : bool;
  fields_cache : gmap string value;
}.

(** A model instance: its class, [_state], the loaded field values
    ([__dict__], keyed by attribute name; a deferred field has no entry)
    and the prefetched collections. *)
Record instance := {
  i_class : string;
  _state : ModelState;
  __dict__ : gmap string value;
  _prefetched_objects_cache : gmap string value;
}.

(** [Model.from_db(db, field_names, values)]: an instance with exactly the
    named fields loaded. *)
Definition from_db (cls : string) (field_names : list string)
    (values : list value) : instance :=
  {| i_class := cls;
     _state := {| sealed := false; fields_cache := ∅ |};
     __dict__ := list_to_map (zip field_names values);
     _prefetched_objects_cache := ∅ |}.

(** [SealableModel.seal], lines 22-27: [self._state.sealed = True]. *)
Definition seal (self : instance) : instance :=
  {| i_class := i_class self;
     _state := {| sealed := true;
                  fields_cache := fields_cache (_state self) |};
     __dict__ := __dict__ self;
     _prefetched_objects_cache := _prefetched_objects_cache self |}.

(** The three categories a violation names. *)
Inductive field_category :=
  | deferred_field
  | related_field
  | many_to_many_field.

#[global] Instance field_category_eq_dec : EqDecision field_category.
Proof. solve_decision. Defined.

Definition category_name (c : field_category) : string :=
  match c with
  | deferred_field => "deferred field"
  | related_field => "related field"
  | many_to_many_field => "many-to-many field"
  end.

(** The guard violation: attribute name, category and the name of the
    instance's type. *)
Record UnsealedAttributeAccess := {
  ua_category : field_category;
  ua_attname : string;
  ua_model : string;
}.

#[global] Instance UnsealedAttributeAccess_eq_dec :
  EqDecision UnsealedAttributeAccess.
Proof. solve_decision. Defined.

(** The text the tests expect, e.g.
    ["Cannot fetch related field location on sealed <SeaLion instance>"]. *)
Definition message (e : UnsealedAttributeAccess) : string :=
  "Cannot fetch " +:+ category_name (ua_category e) +:+ " " +:+
  ua_attname e +:+ " on sealed <" +:+ ua_model e +:+ " instance>".

(** Modelled from the spec: the guarded descriptors live in
    [seal/descriptors.py], which is not among the sources.  The category
    each one reports is the one in the messages of [tests/test_models.py]:
    a reverse foreign key and a generic relation report a many-to-many
    field, every single-valued relation a related field. *)
Definition category (c : descriptor_class) : option field_category :=
  match c with
  | SealableDeferredAttribute => Some deferred_field
  | SealableForwardManyToOneDescriptor
  | SealableForwardOneToOneDescriptor
  | SealableReverseOneToOneDescriptor
  | SealableGenericForeignKey => Some related_field
  | SealableReverseManyToOneDescriptor
  | SealableManyToManyDescriptor
  | SealableReverseGenericManyToOneDescriptor => Some many_to_many_field
  | _ => None
  end.

(** [is_cached]: the relation has been resolved and is in the instance's
    fields cache. *)
Definition is_cached (attname : string) (i : instance) : bool :=
  bool_decide (is_Some (fields_cache (_state i) !! attname)).

Section Guard.

(** What a forward one-to-one descriptor knows of its field:
    [parent_link_fields cls attname] is [Some fields] when the attribute
    [attname] of class [cls] is the inheritance parent link to a parent
    that derives from [SealableModel], [fields] being the attribute names
    of the parent's concrete fields; it is [None] for every other
    attribute. *)
Variable parent_link_fields : string → string → option (list string).

(** Every field of the parent is loaded on the child instance, so that
    the parent can be built from the instance alone. *)
Definition parent_loaded (attname : string) (i : instance) : bool :=
  match parent_link_fields (i_class i) attname with
  | Some fields =>
      forallb (λ field, bool_decide (is_Some (__dict__ i !! field))) fields
  | None => false
  end.

(** Modelled from the spec: the safe-value check of each guarded kind, from
    the table of section 4.2: a deferred field is safe when its value is
    loaded, a reverse single relation when it is resolved and cached, and
    a many-valued relation (plain or generic) never.  For the forward
    single relation and the generic relation the table also names the
    cached key, but [test_sealed_instance_foreign_key_access],
    [test_sealed_instance_one_to_one_access],
    [test_sealed_instance_reverse_parent_link_access] and
    [test_sealed_instance_generic_foreign_key] load the key columns and
    still expect the violation, so the check here is the one those tests
    pass: the related object itself is cached.  A forward one-to-one
    relation that is a parent link is also safe when every field of the
    parent is loaded on the instance: the read of [sealion_ptr] in
    [test_sealed_instance_reverse_parent_link_access_sealed] returns the
    parent, with nothing cached. *)
Definition safe_value (c : descriptor_class) (attname : string)
    (i : instance) : bool :=
  match c with
  | SealableDeferredAttribute => bool_decide (is_Some (__dict__ i !! attname))
  | SealableForwardOneToOneDescriptor =>
      is_cached attname i || parent_loaded attname i
  | SealableForwardManyToOneDescriptor
  | SealableReverseOneToOneDescriptor
  | SealableGenericForeignKey => is_cached attname i
  | SealableReverseManyToOneDescriptor
  | SealableManyToManyDescriptor
  | SealableReverseGenericManyToOneDescriptor => false
  | _ => true
  end.

(** Modelled from the spec: the pre-check of section 4.3.  A guarded
    descriptor reads the seal state; when the instance is sealed and the
    safe-value check fails it raises, using nothing but what is on the
    instance.  Descriptors of other classes have no pre-check. *)
Definition guard (c : descriptor_class) (attname : string) (i : instance)
  : option UnsealedAttributeAccess :=
  match category c with
  | Some cat =>
      if sealed (_state i) && negb (safe_value c attname i)
      then Some {| ua_category := cat;
                   ua_attname := attname;
                   ua_model := i_class i |}
      else None
  | None => None
  end.

End Guard.

(** The Django descriptor a sealable descriptor class derives from. *)
Definition django_base (c : descriptor_class) : descriptor_class :=
  match c with
  | SealableDeferredAttribute => DeferredAttribute
  | SealableForwardManyToOneDescriptor => ForwardManyToOneDescriptor
  | SealableForwardOneToOneDescriptor => ForwardOneToOneDescriptor
  | SealableReverseOneToOneDescriptor => ReverseOneToOneDescriptor
  | SealableReverseManyToOneDescriptor => ReverseManyToOneDescriptor
  | SealableManyToManyDescriptor => ManyToManyDescriptor
  | SealableGenericForeignKey => GenericForeignKey
  | SealableReverseGenericManyToOneDescriptor =>
      ReverseGenericManyToOneDescriptor
  | c => c
  end.

(** What an original (Django) accessor does: it returns a value or raises
    one of Django's own exceptions, may fill the instance's caches, and
    runs some number of queries.  It has no access to the seal flag. *)
Record fetched := {
  fetched_result : value + string;
  fetched_dict : gmap string value;
  fetched_fields_cache : gmap string value;
  fetched_prefetched : gmap string value;
  fetched_queries : nat;
}.

Definition fill (i : instance) (r : fetched) : instance :=
  {| i_class := i_class i;
     _state := {| sealed := sealed (_state i);
                  fields_cache := fetched_fields_cache r |};
     __dict__ := fetched_dict r;
     _prefetched_objects_cache := fetched_prefetched r |}.

(** The outcome of reading an attribute. *)
Inductive outcome :=
  | Returned (v : value)
  | DjangoError (e : string)
  | Violation (e : UnsealedAttributeAccess).

(** An operation on an instance. [Read c attname] reads the attribute
    [attname] through a descriptor of class [c]; for a many-valued
    relation this is the enumeration [instance.attname.all()]. *)
Inductive action :=
  | Seal
  | Read (c : descriptor_class) (attname : string).

Section Access.

(** The parent links of the schema, as in [parent_loaded]. *)
Variable parent_link_fields : string → string → option (list string).

(** The persistence layer: the original accessor of every Django
    descriptor class. *)
Variable django_get : descriptor_class → string → instance → fetched.

(** Modelled from the spec: [descriptor.__get__(instance)] of section
    4.3: the pre-check, then the original accessor unchanged.  The
    third component counts the queries run so far. *)
Definition descriptor_get (c : descriptor_class) (attname : string)
    (i : instance) (queries : nat) : outcome * instance * nat :=
  match guard parent_link_fields c attname i with
  | Some e => (Violation e, i, queries)
  | None =>
      let r := django_get (django_base c) attname i in
      (match fetched_result r with
       | inl v => Returned v
       | inr e => DjangoError e
       end,
       fill i r, queries + fetched_queries r)
  end.

Definition step (a : action) (s : instance * nat) : instance * nat :=
  match a with
  | Seal => (seal s.1, s.2)
  | Read c attname =>
      let r := descriptor_get c attname s.1 s.2 in (r.1.2, r.2)
  end.

Definition run (l : list action) (s : instance * nat) : instance * nat :=
  foldl (λ s a, step a s) s l.

End Access.

(* ===================================================================== *)
(** * Part V: the models and scenarios of tests/test_models.py *)
(* ===================================================================== *)

Definition concrete (fields many_to_many private : list Field) : Options :=
  {| abstract := false;
     proxy := false;
     local_fields := fields;
     local_many_to_many := many_to_many;
     private_fields := private |}.

(** The interpreter once [django.db.models] and [seal.models] are
    imported: [Model] and the abstract [SealableModel] exist, no model is
    registered. *)
Definition django_world : world :=
  {| w_classes :=
       {[ "Model" :=
            {| mro := [];
               _meta := {| abstract := true; proxy := false;
                           local_fields := []; local_many_to_many := [];
                           private_fields := [] |} |};
          SealableModel :=
            {| mro := ["Model"];
               _meta := {| abstract := true; proxy := false;
                           local_fields := []; local_many_to_many := [];
                           private_fields := [] |} |} ]};
     w_attrs := ∅;
     w_related_objects := ∅;
     all_models := ∅;
     pending_operations := [] |}.

Definition AutoField (n : string) : Field :=
  {| name := n; descriptor := Some DeferredAttribute; remote_field := None |}.

Definition IntegerField (n : string) : Field :=
  {| name := n; descriptor := Some DeferredAttribute; remote_field := None |}.

Definition BooleanField (n : string) : Field :=
  {| name := n; descriptor := Some DeferredAttribute; remote_field := None |}.

Definition ForeignKey (n to related_name : string) : Field :=
  {| name := n;
     descriptor := Some ForwardManyToOneDescriptor;
     remote_field :=
       Some {| rf_model := to;
               rf_accessor_name := Some related_name;
               rf_hidden := false;
               rf_many_to_many := false;
               rf_related_accessor_class := ReverseManyToOneDescriptor |} |}.

Definition OneToOneField (n to related_name : string) : Field :=
  {| name := n;
     descriptor := Some ForwardOneToOneDescriptor;
     remote_field :=
       Some {| rf_model := to;
               rf_accessor_name := Some related_name;
               rf_hidden := false;
               rf_many_to_many := false;
               rf_related_accessor_class := ReverseOneToOneDescriptor |} |}.

Definition ManyToManyField (n to related_name : string) : Field :=
  {| name := n;
     descriptor := Some ManyToManyDescriptor;
     remote_field :=
       Some {| rf_model := to;
               rf_accessor_name := Some related_name;
               rf_hidden := false;
               rf_many_to_many := true;
               rf_related_accessor_class := ManyToManyDescriptor |} |}.

(** [class Foo(models.Model): pass], test lines 153-154. *)
Definition Foo : model_decl :=
  {| d_name := "Foo";
     d_mro := ["Model"];
     d_meta := concrete [AutoField "id"] [] [] |}.

(** [class Bar(models.Model)], test lines 156-160. *)
Definition Bar : model_decl :=
  {| d_name := "Bar";
     d_mro := ["Model"];
     d_meta :=
       concrete [AutoField "id"; BooleanField "foo";
                 ForeignKey "fk" "Foo" "fk_bar";
                 OneToOneField "o2o" "Foo" "o2o_bar"]
                [ManyToManyField "m2m" "Foo" "m2m_bar"] [] |}.

(** Two of the models the instance tests load, as those tests use them
    ([tests/models.py] is not among the sources): [Location], and
    [SeaLion] with its foreign key [location] (reverse accessor
    [visitors]) and its many-to-many [previous_locations] (reverse
    accessor [previous_visitors]).  Both derive from [SealableModel]. *)
Definition Location : model_decl :=
  {| d_name := "Location";
     d_mro := [SealableModel; "Model"];
     d_meta := concrete [AutoField "id"] [] [] |}.

Definition SeaLion : model_decl :=
  {| d_name := "SeaLion";
     d_mro := [SealableModel; "Model"];
     d_meta :=
       concrete [AutoField "id"; IntegerField "weight";
                 ForeignKey "location" "Location" "visitors"]
                [ManyToManyField "previous_locations" "Location"
                   "previous_visitors"] [] |}.

(** [isinstance(getattr(model, attname), cls)] for the classes above, none
    of which derives from another. *)
Definition isinstance (w : world) (model attname : string)
    (cls : descriptor_class) : bool :=
  match getattr w model attname with
  | Some (_, c) => bool_decide (c = cls)
  | None => false
  end.

(** The world of [test_make_non_sealable_model_subclass] before its first
    call of [make_model_sealable]. *)
Definition foo_bar_world : result world :=
  w ← define_model Foo django_world; define_model Bar w.

(** [test_make_non_sealable_model_subclass], lines 152-179: the
    conjunction of its assertions. *)
Definition test_make_non_sealable_model_subclass : result bool :=
  w0 ← foo_bar_world;
  w1 ← make_model_sealable "Bar" w0;
  w2 ← make_model_sealable "Foo" w1;
  Ok (isinstance w1 "Bar" "foo" SealableDeferredAttribute
      && isinstance w1 "Bar" "fk" SealableForwardManyToOneDescriptor
      && isinstance w1 "Bar" "o2o" SealableForwardOneToOneDescriptor
      && isinstance w1 "Bar" "m2m" SealableManyToManyDescriptor
      && negb (isinstance w1 "Foo" "fk_bar" SealableReverseManyToOneDescriptor)
      && negb (isinstance w1 "Foo" "o2o_bar" SealableReverseOneToOneDescriptor)
      && negb (isinstance w1 "Foo" "m2m_bar" SealableManyToManyDescriptor)
      && isinstance w2 "Foo" "fk_bar" SealableReverseManyToOneDescriptor
      && isinstance w2 "Foo" "o2o_bar" SealableReverseOneToOneDescriptor
      && isinstance w2 "Foo" "m2m_bar" SealableManyToManyDescriptor).

(** The parent links of the models the instance tests load
    ([tests/models.py] is not among the sources): [GreatSeaLion] inherits
    from [SeaLion] through [sealion_ptr], and the fields of [SeaLion] are
    the ones [test_sealed_instance_reverse_parent_link_access_sealed]
    loads besides the link itself. *)
Definition parent_links (cls attname : string) : option (list string) :=
  if bool_decide (cls = "GreatSeaLion" ∧ attname = "sealion_ptr")
  then Some ["id"; "height"; "weight"; "location_id"; "leak_id";
             "leak_o2o_id"]
  else None.

(** A persistence layer for the scenarios: every original accessor runs
    one query, returns the object with key 1 and caches it. *)
Definition one_query (c : descriptor_class) (attname : string) (i : instance)
  : fetched :=
  {| fetched_result := inl (VObject attname 1);
     fetched_dict := __dict__ i;
     fetched_fields_cache :=
       <[attname := VObject attname 1]> (fields_cache (_state i));
     fetched_prefetched := _prefetched_objects_cache i;
     fetched_queries := 1 |}.

(** [with self.assertNumQueries(n),
    self.assertRaisesMessage(UnsealedAttributeAccess, msg)]. *)
Definition raises_with_queries (n : nat) (msg : string)
    (r : outcome * instance * nat) (before : nat) : bool :=
  match r.1.1 with
  | Violation e => bool_decide (message e = msg) && bool_decide (r.2 = before + n)
  | _ => false
  end.

(** Lines 26-31. *)
Definition test_sealed_instance_deferred_attribute_access : bool :=
  let instance := seal (from_db "SeaLion" ["id"] [VInt 1]) in
  raises_with_queries 0
    "Cannot fetch deferred field weight on sealed <SeaLion instance>"
    (descriptor_get parent_links one_query SealableDeferredAttribute "weight" instance 0) 0.

(** Lines 33-38. *)
Definition test_sealed_instance_foreign_key_access : bool :=
  let instance :=
    seal (from_db "SeaLion" ["id"; "location_id"] [VInt 1; VInt 1]) in
  raises_with_queries 0
    "Cannot fetch related field location on sealed <SeaLion instance>"
    (descriptor_get parent_links one_query SealableForwardManyToOneDescriptor
       "location" instance 0) 0.

(** Lines 40-45. *)
Definition test_sealed_instance_reverse_foreign_key_access : bool :=
  let instance := seal (from_db "Location" ["id"] [VInt 1]) in
  raises_with_queries 0
    "Cannot fetch many-to-many field visitors on sealed <Location instance>"
    (descriptor_get parent_links one_query SealableReverseManyToOneDescriptor
       "visitors" instance 0) 0.

(** Lines 47-52. *)
Definition test_sealed_instance_one_to_one_access : bool :=
  let instance :=
    seal (from_db "SeaGull" ["id"; "sealion_id"] [VInt 1; VInt 1]) in
  raises_with_queries 0
    "Cannot fetch related field sealion on sealed <SeaGull instance>"
    (descriptor_get parent_links one_query SealableForwardOneToOneDescriptor
       "sealion" instance 0) 0.

(** Lines 54-59. *)
Definition test_sealed_instance_reverse_one_to_one_access : bool :=
  let instance := seal (from_db "SeaLion" ["id"] [VInt 1]) in
  raises_with_queries 0
    "Cannot fetch related field gull on sealed <SeaLion instance>"
    (descriptor_get parent_links one_query SealableReverseOneToOneDescriptor
       "gull" instance 0) 0.

(** Lines 61-66. *)
Definition test_sealed_instance_parent_link_access : bool :=
  let instance := seal (from_db "SeaLion" ["id"] [VInt 1]) in
  raises_with_queries 0
    "Cannot fetch related field greatsealion on sealed <SeaLion instance>"
    (descriptor_get parent_links one_query SealableReverseOneToOneDescriptor
       "greatsealion" instance 0) 0.

(** Lines 68-73. *)
Definition test_sealed_instance_reverse_parent_link_access : bool :=
  let instance := seal (from_db "GreatSeaLion" ["sealion_ptr_id"] [VInt 1]) in
  raises_with_queries 0
    "Cannot fetch related field sealion_ptr on sealed <GreatSeaLion instance>"
    (descriptor_get parent_links one_query SealableForwardOneToOneDescriptor
       "sealion_ptr" instance 0) 0.

(** The instance of
    [test_sealed_instance_reverse_parent_link_access_sealed], sealed. *)
Definition great_sea_lion_loaded : instance :=
  seal (from_db "GreatSeaLion"
          ["id"; "sealion_ptr_id"; "height"; "weight"; "location_id";
           "leak_id"; "leak_o2o_id"]
          [VInt 1; VInt 1; VInt 1; VInt 1; VInt 1; VInt 1; VInt 1]).

(** Lines 75-84: [instance.sealion_ptr.location].  The first read has to
    return the parent; the violation the test expects names a sealed
    [SeaLion], which is the parent built from the fields of the child and
    sealed like it. *)
Definition test_sealed_instance_reverse_parent_link_access_sealed : bool :=
  let instance := great_sea_lion_loaded in
  let sealion_ptr :=
    seal (from_db "SeaLion"
            ["id"; "height"; "weight"; "location_id"; "leak_id";
             "leak_o2o_id"]
            [VInt 1; VInt 1; VInt 1; VInt 1; VInt 1; VInt 1]) in
  match (descriptor_get parent_links one_query
           SealableForwardOneToOneDescriptor "sealion_ptr" instance 0).1.1 with
  | Returned _ =>
      raises_with_queries 0
        "Cannot fetch related field location on sealed <SeaLion instance>"
        (descriptor_get parent_links one_query
           SealableForwardManyToOneDescriptor "location" sealion_ptr 0) 0
  | _ => false
  end.

(** Lines 86-91. *)
Definition test_sealed_instance_m2m_access : bool :=
  let instance := seal (from_db "SeaLion" ["id"] [VInt 1]) in
  raises_with_queries 0
    "Cannot fetch many-to-many field previous_locations on sealed <SeaLion instance>"
    (descriptor_get parent_links one_query SealableManyToManyDescriptor
       "previous_locations" instance 0) 0.

(** Lines 93-98. *)
Definition test_sealed_instance_reverse_m2m_access : bool :=
  let instance := seal (from_db "Location" ["id"] [VInt 1]) in
  raises_with_queries 0
    "Cannot fetch many-to-many field previous_visitors on sealed <Location instance>"
    (descriptor_get parent_links one_query SealableManyToManyDescriptor
       "previous_visitors" instance 0) 0.

(** Lines 111-116. *)
Definition test_sealed_instance_generic_foreign_key : bool :=
  let instance :=
    seal (from_db "Nickname" ["id"; "content_type_id"; "object_id"]
            [VInt 1; VInt 1; VInt 1]) in
  raises_with_queries 0
    "Cannot fetch related field content_object on sealed <Nickname instance>"
    (descriptor_get parent_links one_query SealableGenericForeignKey
       "content_object" instance 0) 0.

(** Lines 118-123. *)
Definition test_sealed_instance_generic_relation : bool :=
  let instance := seal (from_db "SeaGull" ["id"] [VInt 1]) in
  raises_with_queries 0
    "Cannot fetch many-to-many field nicknames on sealed <SeaGull instance>"
    (descriptor_get parent_links one_query SealableReverseGenericManyToOneDescriptor
       "nicknames" instance 0) 0.


(** The relation of [Bar.fk], and the class object of [Bar]. *)
Definition Bar_fk : RemoteField :=
  {| rf_model := "Foo";
     rf_accessor_name := Some "fk_bar";
     rf_hidden := false;
     rf_many_to_many := false;
     rf_related_accessor_class := ReverseManyToOneDescriptor |}.


(* --------------------------------------------------------------------- *)
(** ** Vocabulary of the statements *)
(* --------------------------------------------------------------------- *)

(** The six attribute kinds of the guard registry. *)
Inductive attribute_kind :=
  | deferred_scalar
  | forward_single
  | reverse_single
  | many_valued
  | generic_relation
  | generic_reverse.

Definition kind (c : descriptor_class) : option attribute_kind :=
  match c with
  | SealableDeferredAttribute => Some deferred_scalar
  | SealableForwardManyToOneDescriptor
  | SealableForwardOneToOneDescriptor => Some forward_single
  | SealableReverseOneToOneDescriptor => Some reverse_single
  | SealableReverseManyToOneDescriptor
  | SealableManyToManyDescriptor => Some many_valued
  | SealableGenericForeignKey => Some generic_relation
  | SealableReverseGenericManyToOneDescriptor => Some generic_reverse
  | _ => None
  end.

(** What [make_descriptor_sealable] makes of a descriptor class. *)
Definition seal_cls (d : descriptor_class) : descriptor_class :=
  default d (sealable_descriptor_classes d).

(** The [__dict__] entry that [getattr] reads along a linearization. *)
Definition owner_cell (attrs : gmap (string * string) descriptor_class)
    (classes : list string) (attname : string) : option (string * string) :=
  (λ found, (found.1, attname)) <$> mro_lookup attrs classes attname.

Definition wrap (k : option (string * string))
    (attrs : gmap (string * string) descriptor_class)
  : gmap (string * string) descriptor_class :=
  match k with
  | Some k => alter seal_cls k attrs
  | None => attrs
  end.

Definition wrap_all (cells : list (option (string * string)))
    (attrs : gmap (string * string) descriptor_class)
  : gmap (string * string) descriptor_class :=
  foldl (λ m k, wrap k m) attrs cells.

(** The entries that [make_field_sealable] assigns for one field, or the
    exception it raises. *)
Definition field_cells (w : world) (sender : string) (field : Field)
  : result (list (option (string * string))) :=
  let own := owner_cell (w_attrs w) (linearization w sender) (name field) in
  match remote_field field with
  | None => Ok [own]
  | Some rf =>
      if decide (sender ∈ all_models w) then
        if decide (rf_model rf ∈ all_models w) then
          if issubclass w (rf_model rf) SealableModel then
            match rf_accessor_name rf with
            | None => Raise TypeError
            | Some accessor =>
                Ok [own;
                    owner_cell (w_attrs w) (linearization w (rf_model rf))
                      accessor]
            end
          else Ok [own]
        else Ok [own]
      else Ok [own]
  end.

Fixpoint loop_cells (w : world) (sender : string) (fields : list Field)
  : result (list (option (string * string))) :=
  match fields with
  | [] => Ok []
  | f :: rest =>
      cells ← field_cells w sender f;
      more ← loop_cells w sender rest;
      Ok (cells ++ more)
  end.

(** The entries assigned for the related objects of [model] (the second
    loop of [make_model_sealable]). *)
Fixpoint related_cells (w : world) (model : string)
    (related_objects : list RemoteField)
  : result (list (option (string * string))) :=
  match related_objects with
  | [] => Ok []
  | ro :: rest =>
      match rf_accessor_name ro with
      | None => Raise TypeError
      | Some accessor =>
          more ← related_cells w model rest;
          Ok (owner_cell (w_attrs w) (linearization w model) accessor :: more)
      end
  end.

(** All entries that [make_field_descriptors_sealable(sender)] assigns. *)
Definition receiver_cells (sender : string) (w : world)
  : result (list (option (string * string))) :=
  if negb (issubclass w sender SealableModel) then Ok []
  else
    match w_classes w !! sender with
    | None => Ok []
    | Some cls =>
        if abstract (_meta cls) || proxy (_meta cls) then Ok []
        else loop_cells w sender (all_local_fields (_meta cls))
    end.

(** All entries that [make_model_sealable(model)] assigns. *)
Definition model_cells (model : string) (w : world)
  : result (list (option (string * string))) :=
  match w_classes w !! model with
  | None => Ok []
  | Some cls =>
      if abstract (_meta cls) || proxy (_meta cls) then Ok []
      else
        cells ← loop_cells w model (all_local_fields (_meta cls));
        more ← related_cells w model
                 (default [] (w_related_objects w !! model));
        Ok (cells ++ more)
  end.

(** [op] does nothing but assign the class of the entries [cells] and add
    to the queue, or it raises. *)
Definition assigns (op : world → result world)
    (cells : world → result (list (option (string * string)))) : Prop :=
  ∀ w, match cells w with
       | Raise e => op w = Raise e
       | Ok c => ∃ extra,
           op w = Ok (set_pending (λ ops, ops ++ extra)
                        (set_attrs (wrap_all c) w))
       end.

(** Everything of a world except the queue of pending operations. *)
Definition same_core (w u : world) : Prop :=
  w_classes w = w_classes u ∧ w_attrs w = w_attrs u ∧
  w_related_objects w = w_related_objects u ∧ all_models w = all_models u.

(** The descriptors that the fields of a new class store on it. *)
Definition set_fields (model : string) (fields : list Field)
    (attrs : gmap (string * string) descriptor_class)
  : gmap (string * string) descriptor_class :=
  foldl (λ m f, match descriptor f with
                | Some d => <[(model, name f) := d]> m
                | None => m
                end) attrs fields.

(** The entries that the relation fields of [model] leave in the queue
    while [model] is not registered: each waits for [model] and then for
    its target. *)
Definition queued (mk : RemoteField → operation) (model : string)
    (fields : list Field) : list pending :=
  omap (λ f, (λ rf, {| po_key := model;
                       po_more := [rf_model rf];
                       po_op := mk rf |}) <$> remote_field f) fields.

(** The entries found by reading every field's name on [model]. *)
Definition own_cells (w : world) (model : string) (fields : list Field)
  : list (option (string * string)) :=
  (λ f, owner_cell (w_attrs w) (linearization w model) (name f)) <$> fields.

(** Two worlds with the same classes, the same registered models and the
    same attribute names on every class. *)
Definition same_shape (w u : world) : Prop :=
  w_classes w = w_classes u ∧ all_models w = all_models u ∧
  w_related_objects w = w_related_objects u ∧
  ∀ k, is_Some (w_attrs w !! k) ↔ is_Some (w_attrs u !! k).

(** A model takes part in sealing when the receiver gets past its two
    early returns. *)
Definition eligible (d : model_decl) : bool :=
  bool_decide (SealableModel ∈ d_name d :: d_mro d)
  && negb (abstract (d_meta d) || proxy (d_meta d)).

(** What defining the model [d] does to the class attributes: its fields
    store their descriptors, and the receiver, if it gets past its early
    returns, assigns the entry found under each field's name. *)
Definition prepare_attrs (d : model_decl)
    (attrs : gmap (string * string) descriptor_class)
  : gmap (string * string) descriptor_class :=
  let fields := all_local_fields (d_meta d) in
  let stored := set_fields (d_name d) fields attrs in
  if eligible d
  then wrap_all ((λ f, owner_cell stored (d_name d :: d_mro d) (name f))
                   <$> fields) stored
  else stored.


(** What defining the model [d] has queued by the time it is registered. *)
Definition model_queue (d : model_decl) : list pending :=
  let fields := all_local_fields (d_meta d) in
  queued (resolve_related_class (d_name d)) (d_name d) fields
  ++ (if eligible d
      then queued (make_remote_field_descriptor_sealable_op (d_name d))
             (d_name d) fields
      else []).

(** Resuming a pending operation. *)
Definition resume (p : pending) (w : world) : result world :=
  lazy_model_operation (po_op p) (po_more p) w.

(** The call returned normally. *)
Definition returns (r : result world) : bool :=
  match r with
  | Ok _ => true
  | Raise _ => false
  end.

Definition world_of (r : result world) : world :=
  match r with
  | Ok w => w
  | Raise _ => django_world
  end.

(* --------------------------------------------------------------------- *)
(** ** Further example models *)
(* --------------------------------------------------------------------- *)

(** A multi-table child of [Bar]: it inherits [Bar]'s attributes and adds
    the parent link. *)
Definition Baz : model_decl :=
  {| d_name := "Baz";
     d_mro := ["Bar"; "Model"];
     d_meta := concrete [OneToOneField "bar_ptr" "Bar" "baz"] [] [] |}.

Definition foo_bar_baz_world : result world :=
  w ← foo_bar_world; define_model Baz w.

(** A sealable model with a symmetrical many-to-many relation to itself:
    Django hides the reverse side and [get_accessor_name()] is [None]. *)
Definition Friend_friends : RemoteField :=
  {| rf_model := "Friend";
     rf_accessor_name := None;
     rf_hidden := true;
     rf_many_to_many := true;
     rf_related_accessor_class := ManyToManyDescriptor |}.

Definition Friend : model_decl :=
  {| d_name := "Friend";
     d_mro := [SealableModel; "Model"];
     d_meta :=
       concrete [AutoField "id"]
                [{| name := "friends";
                    descriptor := Some ManyToManyDescriptor;
                    remote_field := Some Friend_friends |}] [] |}.

(** [Friend] once its class exists and is registered, before anything of
    [seal/models.py] has run on it. *)
Definition friend_registered : world :=
  {| w_classes :=
       <["Friend" := {| mro := d_mro Friend; _meta := d_meta Friend |}]>
         (w_classes django_world);
     w_attrs :=
       set_fields "Friend" (all_local_fields (d_meta Friend)) ∅;
     w_related_objects := ∅;
     all_models := {["Friend"]};
     pending_operations := [] |}.

(** A model that does not derive from [SealableModel], with a symmetrical
    many-to-many relation to itself. *)
Definition Contact_contacts : RemoteField :=
  {| rf_model := "Contact";
     rf_accessor_name := None;
     rf_hidden := true;
     rf_many_to_many := true;
     rf_related_accessor_class := ManyToManyDescriptor |}.

Definition Contact : model_decl :=
  {| d_name := "Contact";
     d_mro := ["Model"];
     d_meta :=
       concrete [AutoField "id"]
                [{| name := "contacts";
                    descriptor := Some ManyToManyDescriptor;
                    remote_field := Some Contact_contacts |}] [] |}.

Definition contact_world : result world :=
  define_model Contact django_world.

(** [SeaLion] when [class_prepared] is about to be sent: the class exists,
    its fields have contributed, it is not registered. *)
Definition sea_lion_class_created : world :=
  world_of (for_each (contribute_to_class "SeaLion")
              (all_local_fields (d_meta SeaLion))
              (new_class SeaLion django_world)).

(** The relation of [SeaLion.location]. *)
Definition SeaLion_location : RemoteField :=
  {| rf_model := "Location";
     rf_accessor_name := Some "visitors";
     rf_hidden := false;
     rf_many_to_many := false;
     rf_related_accessor_class := ReverseManyToOneDescriptor |}.

(** A model that does not derive from [SealableModel] with a foreign key
    to the sealable [Location]. *)
Definition Visit : model_decl :=
  {| d_name := "Visit";
     d_mro := ["Model"];
     d_meta := concrete [AutoField "id";
                         ForeignKey "place" "Location" "visits"] [] [] |}.

Definition Visit_place : RemoteField :=
  {| rf_model := "Location";
     rf_accessor_name := Some "visits";
     rf_hidden := false;
     rf_many_to_many := false;
     rf_related_accessor_class := ReverseManyToOneDescriptor |}.

Definition location_visit_world : result world :=
  w ← define_model Location django_world; define_model Visit w.

(** The relations among a list of fields. *)
Definition relations (fields : list Field) : list RemoteField :=
  omap remote_field fields.

(* --------------------------------------------------------------------- *)
(** ** Queued operations as changes of the class attributes *)
(* --------------------------------------------------------------------- *)















(** Two worlds that differ at most in the order in which the related
    objects of a model are listed: same classes, same class attributes
    (so the same guarded and unguarded descriptors), same registered
    models, same queue. *)
Definition same_outcome (w u : world) : Prop :=
  w_classes w = w_classes u ∧ w_attrs w = w_attrs u
  ∧ all_models w = all_models u
  ∧ pending_operations w = pending_operations u
  ∧ ∀ model, default [] (w_related_objects w !! model)
             ≡ₚ default [] (w_related_objects u !! model).

(** [instance.attname] where the class attribute is a descriptor: Python
    finds the descriptor on the instance's class and calls its
    [__get__]; [None] when the class has no such attribute. *)
Definition read_attribute
    (parent_link_fields : string → string → option (list string))
    (django_get : descriptor_class → string → instance → fetched)
    (w : world) (i : instance) (attname : string) (queries : nat)
  : option (outcome * instance * nat) :=
  match getattr w (i_class i) attname with
  | Some (_, c) =>
      Some (descriptor_get parent_link_fields django_get c attname i queries)
  | None => None
  end.





(** Two models with relations in both directions and a relation of one to
    itself, under distinct reverse accessor names: the sealable [Keeper]
    and [Pool], which does not derive from [SealableModel]. *)
Definition Keeper : model_decl :=
  {| d_name := "Keeper";
     d_mro := [SealableModel; "Model"];
     d_meta := concrete [AutoField "id";
                         ForeignKey "pool" "Pool" "keepers";
                         OneToOneField "deputy" "Keeper" "deputy_of"]
                        [] [] |}.

Definition Pool : model_decl :=
  {| d_name := "Pool";
     d_mro := ["Model"];
     d_meta := concrete [AutoField "id";
                         ForeignKey "head" "Keeper" "pools"] [] [] |}.

Definition keeper_then_pool : result world :=
  define_model Keeper django_world ≫= define_model Pool.

Definition pool_then_keeper : result world :=
  define_model Pool django_world ≫= define_model Keeper.

(* ===================================================================== *)
(** * Part VI: theorems *)
(* ===================================================================== *)

(** ** The embedding passes the repository's tests *)

Example test_make_non_sealable_model_subclass_passes :
  test_make_non_sealable_model_subclass = Ok true.
Proof. vm_compute. reflexivity. Qed.

Example instance_tests_pass :
  test_sealed_instance_deferred_attribute_access
  && test_sealed_instance_foreign_key_access
  && test_sealed_instance_reverse_foreign_key_access
  && test_sealed_instance_one_to_one_access
  && test_sealed_instance_reverse_one_to_one_access
  && test_sealed_instance_parent_link_access
  && test_sealed_instance_reverse_parent_link_access
  && test_sealed_instance_reverse_parent_link_access_sealed
  && test_sealed_instance_m2m_access
  && test_sealed_instance_reverse_m2m_access
  && test_sealed_instance_generic_foreign_key
  && test_sealed_instance_generic_relation = true.
Proof. vm_compute. reflexivity. Qed.

(** ** The registry *)

Lemma sealable_classes_are_not_keys c s :
  sealable_descriptor_classes c = Some s →
  sealable_descriptor_classes s = None.
Proof. destruct c; simpl; intros [= <-]; reflexivity. Qed.

Lemma seal_cls_idemp d : seal_cls (seal_cls d) = seal_cls d.
Proof. destruct d; reflexivity. Qed.

Lemma seal_cls_registered c s :
  sealable_descriptor_classes c = Some s → seal_cls c = s.
Proof. unfold seal_cls. intros ->. reflexivity. Qed.

Lemma seal_cls_unregistered c :
  sealable_descriptor_classes c = None → seal_cls c = c.
Proof. unfold seal_cls. intros ->. reflexivity. Qed.

(** ** Assigning descriptor classes in place *)

Lemma lookup_wrap k m j :
  wrap k m !! j = if decide (k = Some j) then seal_cls <$> m !! j else m !! j.
Proof.
  destruct k as [k|]; simpl.
  - rewrite lookup_alter. repeat case_decide; congruence.
  - reflexivity.
Qed.

Lemma lookup_wrap_all cells m j :
  wrap_all cells m !! j =
  if decide (Some j ∈ cells) then seal_cls <$> m !! j else m !! j.
Proof.
  revert m. induction cells as [|k cells IH]; intros m.
  - rewrite decide_False by apply not_elem_of_nil. reflexivity.
  - change (wrap_all (k :: cells) m) with (wrap_all cells (wrap k m)).
    rewrite IH, lookup_wrap.
    destruct (decide (Some j ∈ k :: cells)) as [H1|H1];
      destruct (decide (Some j ∈ cells)) as [H2|H2];
      destruct (decide (k = Some j)) as [H3|H3];
      try reflexivity.
    + destruct (m !! j); simpl; [|reflexivity]. by rewrite seal_cls_idemp.
    + apply elem_of_cons in H1 as [?|?]; congruence.
    + exfalso. apply H1. by right.
    + exfalso. apply H1. by right.
    + exfalso. apply H1. subst k. by left.
Qed.

Lemma wrap_all_is_Some cells m j :
  is_Some (wrap_all cells m !! j) ↔ is_Some (m !! j).
Proof.
  rewrite lookup_wrap_all. case_decide; [|reflexivity].
  apply fmap_is_Some.
Qed.

Lemma wrap_all_app c1 c2 m : wrap_all (c1 ++ c2) m = wrap_all c2 (wrap_all c1 m).
Proof. apply foldl_app. Qed.

Lemma wrap_all_idemp cells m : wrap_all cells (wrap_all cells m) = wrap_all cells m.
Proof.
  apply map_eq. intros j. rewrite !lookup_wrap_all.
  case_decide; [|reflexivity].
  destruct (m !! j); simpl; [|reflexivity]. by rewrite seal_cls_idemp.
Qed.

Lemma wrap_all_comm c1 c2 m :
  wrap_all c1 (wrap_all c2 m) = wrap_all c2 (wrap_all c1 m).
Proof.
  apply map_eq. intros j. rewrite !lookup_wrap_all.
  repeat case_decide; reflexivity.
Qed.


(** ** Attribute lookup *)

Lemma mro_lookup_Some attrs classes attname owner d :
  mro_lookup attrs classes attname = Some (owner, d) →
  owner ∈ classes ∧ attrs !! (owner, attname) = Some d.
Proof.
  induction classes as [|c rest IH]; simpl; [discriminate|].
  destruct (attrs !! (c, attname)) eqn:E.
  - intros [= <- <-]. split; [left | done].
  - intros [? ?]%IH. split; [by right | done].
Qed.

Lemma owner_cell_elem attrs classes attname k :
  owner_cell attrs classes attname = Some k →
  k.1 ∈ classes ∧ k.2 = attname ∧ is_Some (attrs !! k).
Proof.
  unfold owner_cell.
  destruct (mro_lookup attrs classes attname) as [[o d]|] eqn:E; [|discriminate].
  intros [= <-]. apply mro_lookup_Some in E as [? ?]. simpl. eauto.
Qed.

Lemma owner_cell_own attrs c rest attname :
  is_Some (attrs !! (c, attname)) →
  owner_cell attrs (c :: rest) attname = Some (c, attname).
Proof. intros [d Hd]. unfold owner_cell. simpl. rewrite Hd. reflexivity. Qed.

Lemma owner_cell_ext attrs attrs' classes attname :
  (∀ c, c ∈ classes →
        is_Some (attrs !! (c, attname)) ↔ is_Some (attrs' !! (c, attname))) →
  owner_cell attrs classes attname = owner_cell attrs' classes attname.
Proof.
  unfold owner_cell. induction classes as [|c rest IH]; intros H; [reflexivity|].
  simpl. pose proof (H c (ltac:(left))) as Hc.
  destruct (attrs !! (c, attname)) eqn:E1, (attrs' !! (c, attname)) eqn:E2.
  - reflexivity.
  - exfalso. destruct Hc as [Hc _]. destruct Hc; eauto; discriminate.
  - exfalso. destruct Hc as [_ Hc]. destruct Hc; eauto; discriminate.
  - apply IH. intros c' ?. apply H. by right.
Qed.

Lemma owner_cell_wrap_all cells attrs classes attname :
  owner_cell (wrap_all cells attrs) classes attname =
  owner_cell attrs classes attname.
Proof. apply owner_cell_ext. intros. apply wrap_all_is_Some. Qed.

(** ** [make_descriptor_sealable] in closed form *)

Lemma set_attrs_id w : set_attrs (λ m, m) w = w.
Proof. by destruct w. Qed.

Lemma make_descriptor_sealable_eq model attname w :
  make_descriptor_sealable model (Some attname) w =
  Ok (set_attrs
        (wrap (owner_cell (w_attrs w) (linearization w model) attname)) w).
Proof.
  unfold make_descriptor_sealable, getattr, owner_cell.
  destruct (mro_lookup _ _ _) as [[owner d]|] eqn:E; simpl.
  - apply mro_lookup_Some in E as [_ E].
    destruct (sealable_descriptor_classes d) as [s|] eqn:R.
    + f_equal. unfold set_attrs. f_equal.
      apply map_eq. intros j. rewrite lookup_wrap, lookup_insert.
      destruct (decide (Some (owner, attname) = Some j)) as [[= <-]|Hj];
        [rewrite decide_True by done|rewrite decide_False by congruence; done].
      rewrite E. simpl. by rewrite (seal_cls_registered _ _ R).
    + rewrite <- (set_attrs_id w) at 1. f_equal. unfold set_attrs. f_equal.
      apply map_eq. intros j. rewrite lookup_wrap.
      case_decide as Hj; [injection Hj as <-|reflexivity].
      rewrite E. simpl. by rewrite (seal_cls_unregistered _ R).
  - by rewrite set_attrs_id.
Qed.

(** ** The loop of the receiver in closed form *)

Lemma same_shape_refl w : same_shape w w.
Proof. by repeat split. Qed.

Lemma same_shape_wrap cells extra w :
  same_shape w (set_pending extra (set_attrs (wrap_all cells) w)).
Proof.
  repeat split; simpl; try done; intros H.
  - by apply wrap_all_is_Some.
  - by apply wrap_all_is_Some in H.
Qed.

Lemma linearization_ext w u model :
  w_classes w = w_classes u → linearization w model = linearization u model.
Proof. unfold linearization. by intros ->. Qed.

Lemma field_cells_ext w u sender f :
  same_shape w u → field_cells w sender f = field_cells u sender f.
Proof.
  intros (Hc & Hm & _ & Ha). unfold field_cells, issubclass.
  assert (∀ m, linearization w m = linearization u m) as Hlin
    by (intros; by apply linearization_ext).
  assert (∀ cls a, owner_cell (w_attrs w) cls a = owner_cell (w_attrs u) cls a)
    as Hown by (intros; apply owner_cell_ext; intros; apply Ha).
  rewrite Hm, (Hlin sender), Hown.
  destruct (remote_field f) as [rf|]; [|done].
  rewrite (Hlin (rf_model rf)).
  destruct (rf_accessor_name rf); [|done]. by rewrite Hown.
Qed.

Lemma loop_cells_ext w u sender fs :
  same_shape w u → loop_cells w sender fs = loop_cells u sender fs.
Proof.
  intros H. induction fs as [|f fs IH]; [done|]. simpl.
  by rewrite (field_cells_ext w u), IH.
Qed.

Lemma set_pending_nil w : set_pending (λ ops, ops ++ []) w = w.
Proof. destruct w. unfold set_pending. simpl. by rewrite app_nil_r. Qed.

Lemma make_field_sealable_eq sender f w :
  match field_cells w sender f with
  | Raise e => make_field_sealable sender f w = Raise e
  | Ok cells =>
      ∃ extra, make_field_sealable sender f w =
               Ok (set_pending (λ ops, ops ++ extra)
                     (set_attrs (wrap_all cells) w))
  end.
Proof.
  unfold make_field_sealable, field_cells.
  rewrite make_descriptor_sealable_eq.
  set (own := owner_cell _ _ (name f)).
  change (Ok ?x ≫= ?k) with (k x). cbv beta.
  destruct (remote_field f) as [rf|].
  2:{ exists []. by rewrite set_pending_nil. }
  unfold lazy_related_operation. cbn [lazy_model_operation].
  change (all_models (set_attrs _ w)) with (all_models w).
  destruct (decide (sender ∈ all_models w)).
  2:{ eexists. reflexivity. }
  destruct (decide (rf_model rf ∈ all_models w)).
  2:{ eexists. reflexivity. }
  cbn [run_operation]. unfold make_remote_field_descriptor_sealable.
  assert (issubclass (set_attrs (wrap own) w) (rf_model rf) SealableModel
          = issubclass w (rf_model rf) SealableModel) as -> by done.
  destruct (issubclass w (rf_model rf) SealableModel); simpl.
  2:{ exists []. by rewrite set_pending_nil. }
  destruct (rf_accessor_name rf) as [accessor|]; [|done].
  rewrite make_descriptor_sealable_eq.
  exists []. rewrite set_pending_nil. f_equal.
  unfold set_attrs; simpl. f_equal.
  change (wrap own (w_attrs w)) with (wrap_all [own] (w_attrs w)).
  by rewrite owner_cell_wrap_all.
Qed.

Lemma for_each_make_field_sealable sender fs w :
  match loop_cells w sender fs with
  | Raise e => for_each (make_field_sealable sender) fs w = Raise e
  | Ok cells =>
      ∃ extra, for_each (make_field_sealable sender) fs w =
               Ok (set_pending (λ ops, ops ++ extra)
                     (set_attrs (wrap_all cells) w))
  end.
Proof.
  revert w. induction fs as [|f fs IH]; intros w; simpl.
  { exists []. rewrite set_pending_nil. unfold wrap_all. simpl.
    by rewrite set_attrs_id. }
  pose proof (make_field_sealable_eq sender f w) as Hf.
  destruct (field_cells w sender f) as [cells|e]; simpl.
  2:{ by rewrite Hf. }
  destruct Hf as [extra ->].
  change (Ok ?x ≫= ?k) with (k x). cbv beta.
  specialize (IH (set_pending (λ ops, ops ++ extra)
                    (set_attrs (wrap_all cells) w))).
  rewrite <- (loop_cells_ext w) in IH by apply same_shape_wrap.
  destruct (loop_cells w sender fs) as [more|e]; simpl; [|done].
  destruct IH as [extra' ->]. exists (extra ++ extra').
  f_equal. unfold set_pending, set_attrs; simpl.
  by rewrite wrap_all_app, app_assoc.
Qed.

Lemma related_cells_ext w u model ros :
  same_shape w u → related_cells w model ros = related_cells u model ros.
Proof.
  intros (Hc & _ & _ & Ha). induction ros as [|ro ros IH]; [done|]. simpl.
  rewrite IH, (linearization_ext w u) by done.
  destruct (rf_accessor_name ro); [|done].
  by rewrite (owner_cell_ext (w_attrs w) (w_attrs u)) by (intros; apply Ha).
Qed.

Lemma for_each_related_objects model ros w :
  match related_cells w model ros with
  | Raise e =>
      for_each (λ ro, make_descriptor_sealable model (rf_accessor_name ro))
        ros w = Raise e
  | Ok cells =>
      for_each (λ ro, make_descriptor_sealable model (rf_accessor_name ro))
        ros w = Ok (set_attrs (wrap_all cells) w)
  end.
Proof.
  revert w. induction ros as [|ro ros IH]; intros w; simpl.
  { unfold wrap_all. simpl. by rewrite set_attrs_id. }
  destruct (rf_accessor_name ro) as [accessor|]; [|done].
  rewrite make_descriptor_sealable_eq.
  change (Ok ?x ≫= ?k) with (k x). cbv beta.
  set (own := owner_cell _ _ accessor).
  specialize (IH (set_attrs (wrap own) w)).
  rewrite <- (related_cells_ext w) in IH
    by apply (same_shape_wrap [own] (λ ops, ops)).
  destruct (related_cells w model ros) as [more|e]; simpl; [|done].
  rewrite IH. reflexivity.
Qed.

Lemma receiver_assigns sender :
  assigns (make_field_descriptors_sealable sender) (receiver_cells sender).
Proof.
  intros w. unfold receiver_cells, make_field_descriptors_sealable.
  assert (∃ extra, Ok w = Ok (set_pending (λ ops, ops ++ extra)
                                (set_attrs (wrap_all []) w))) as Hid.
  { exists []. rewrite set_pending_nil. unfold wrap_all; simpl.
    by rewrite set_attrs_id. }
  destruct (negb _); [done|].
  destruct (w_classes w !! sender) as [cls|]; [|done].
  destruct (abstract _ || proxy _); [done|].
  apply for_each_make_field_sealable.
Qed.

Lemma model_assigns model :
  assigns (make_model_sealable model) (model_cells model).
Proof.
  intros w. unfold model_cells, make_model_sealable.
  assert (∃ extra, Ok w = Ok (set_pending (λ ops, ops ++ extra)
                                (set_attrs (wrap_all []) w))) as Hid.
  { exists []. rewrite set_pending_nil. unfold wrap_all; simpl.
    by rewrite set_attrs_id. }
  destruct (w_classes w !! model) as [cls|]; [|done].
  destruct (abstract _ || proxy _); [done|].
  pose proof (for_each_make_field_sealable model
                (all_local_fields (_meta cls)) w) as H1.
  destruct (loop_cells w model _) as [cells|e]; simpl; [|by rewrite H1].
  destruct H1 as [extra ->].
  change (Ok ?x ≫= ?k) with (k x). cbv beta.
  set (w1 := set_pending _ _).
  change (w_related_objects w1) with (w_related_objects w).
  pose proof (for_each_related_objects model
                (default [] (w_related_objects w !! model)) w1) as H2.
  rewrite <- (related_cells_ext w) in H2 by apply same_shape_wrap.
  destruct (related_cells w model _) as [more|e]; simpl; [|done].
  exists extra. rewrite H2. f_equal.
  unfold w1, set_pending, set_attrs; simpl. by rewrite wrap_all_app.
Qed.

Lemma receiver_cells_ext sender w u :
  same_shape w u → receiver_cells sender w = receiver_cells sender u.
Proof.
  intros H. pose proof H as (Hc & _). unfold receiver_cells, issubclass.
  rewrite (linearization_ext w u), Hc by done.
  destruct (negb _); [done|].
  destruct (w_classes u !! sender); [|done].
  destruct (abstract _ || proxy _); [done|]. by apply loop_cells_ext.
Qed.

Lemma model_cells_ext model w u :
  same_shape w u → model_cells model w = model_cells model u.
Proof.
  intros H. pose proof H as (Hc & _ & Hr & _). unfold model_cells.
  rewrite Hc, Hr.
  destruct (w_classes u !! model); [|done].
  destruct (abstract _ || proxy _); [done|].
  by rewrite (loop_cells_ext w u), (related_cells_ext w u).
Qed.

(** An operation in closed form leaves the same classes behind when it is
    run a second time. *)
Section Twice.
Variable op : world → result world.
Variable cells : world → result (list (option (string * string))).
Hypothesis op_assigns : assigns op cells.
Hypothesis cells_ext : ∀ w u, same_shape w u → cells w = cells u.

Lemma assigns_twice w :
  w_attrs <$> (op w ≫= op) = w_attrs <$> op w.
Proof.
  pose proof (op_assigns w) as H1.
  destruct (cells w) as [c|e] eqn:Hc; [|by rewrite H1].
  destruct H1 as [extra ->].
  change (Ok ?x ≫= ?k) with (k x). cbv beta.
  set (w1 := set_pending _ _).
  pose proof (op_assigns w1) as H2.
  rewrite <- (cells_ext w w1), Hc in H2 by apply same_shape_wrap.
  destruct H2 as [extra' ->]. simpl. f_equal.
  apply wrap_all_idemp.
Qed.
End Twice.

(** ** Seal state *)

Lemma step_keeps_sealed parent_link_fields django_get a s :
  sealed (_state s.1) = true →
  sealed (_state (step parent_link_fields django_get a s).1) = true.
Proof.
  destruct s as [i q]. destruct a as [|c attname]; simpl; [done|].
  unfold descriptor_get. by destruct (guard _ c attname i).
Qed.

Lemma run_keeps_sealed parent_link_fields django_get l s :
  sealed (_state s.1) = true →
  sealed (_state (run parent_link_fields django_get l s).1) = true.
Proof.
  revert s. induction l as [|a l IH]; intros s H; [done|].
  apply IH. by apply step_keeps_sealed.
Qed.

(** C7. [seal] always returns, leaves the flag set, and sealing a second
    time changes nothing, so whatever is done next behaves the same.  Once
    [Seal] has occurred in a sequence of operations on an instance (seals
    and attribute reads through any descriptor, over any persistence
    layer), the instance is sealed at the end of the sequence: nothing
    resets the flag. *)
Theorem seal_idempotent_and_permanent
    (parent_link_fields : string → string → option (list string))
    (django_get : descriptor_class → string → instance → fetched)
    (i : instance) (q : nat) (before after : list action) :
  sealed (_state (seal i)) = true
  ∧ seal (seal i) = seal i
  ∧ run parent_link_fields django_get after (seal (seal i), q) = run parent_link_fields django_get after (seal i, q)
  ∧ sealed (_state (run parent_link_fields django_get (before ++ Seal :: after) (i, q)).1) = true.
Proof.
  repeat split.
  unfold run. rewrite foldl_app. simpl.
  apply run_keeps_sealed. reflexivity.
Qed.

(** ** Guarded access *)

(** C5. On an unsealed instance the guarded descriptor is the original
    accessor: same outcome, same instance afterwards (so the same caching),
    same queries, whatever the caches hold; and the outcome is never the
    guard violation. *)
Theorem unsealed_access_delegates
    (parent_link_fields : string → string → option (list string))
    (django_get : descriptor_class → string → instance → fetched)
    (c s : descriptor_class) (attname : string) (i : instance) (q : nat) :
  sealable_descriptor_classes c = Some s →
  sealed (_state i) = false →
  descriptor_get parent_link_fields django_get s attname i q
  = descriptor_get parent_link_fields django_get c attname i q
  ∧ descriptor_get parent_link_fields django_get s attname i q
    = (match fetched_result (django_get c attname i) with
       | inl v => Returned v
       | inr e => DjangoError e
       end,
       fill i (django_get c attname i),
       q + fetched_queries (django_get c attname i))
  ∧ ∀ e, (descriptor_get parent_link_fields django_get s attname i q).1.1 ≠ Violation e.
Proof.
  intros Hreg Hunsealed.
  assert (guard parent_link_fields s attname i = None) as Hs.
  { unfold guard. rewrite Hunsealed. by destruct (category s). }
  assert (guard parent_link_fields c attname i = None ∧ django_base c = c ∧ django_base s = c)
    as (Hc & Hb & Hbs).
  { destruct c; simpl in Hreg; try discriminate;
      injection Hreg as <-; done. }
  unfold descriptor_get. rewrite Hs, Hc, Hb, Hbs.
  repeat split. intros e. simpl. by destruct (fetched_result _).
Qed.

Lemma unsealed_access_delegates_witness :
  sealable_descriptor_classes ForwardManyToOneDescriptor
  = Some SealableForwardManyToOneDescriptor
  ∧ descriptor_get parent_links one_query SealableForwardManyToOneDescriptor "location"
      (from_db "SeaLion" ["id"] [VInt 1]) 0
    = descriptor_get parent_links one_query ForwardManyToOneDescriptor "location"
        (from_db "SeaLion" ["id"] [VInt 1]) 0.
Proof.
  split; [reflexivity|].
  apply (unsealed_access_delegates parent_links one_query ForwardManyToOneDescriptor
           SealableForwardManyToOneDescriptor "location"
           (from_db "SeaLion" ["id"] [VInt 1]) 0); reflexivity.
Defined.

(** C4. On a sealed instance, enumerating a many-valued relation (forward
    or reverse many-to-many, reverse many-to-one, generic relation) raises
    the guard violation whatever the instance has loaded, cached or
    prefetched; the instance is left as it was and no query is run. *)
Theorem many_valued_relation_always_guarded
    (parent_link_fields : string → string → option (list string))
    (django_get : descriptor_class → string → instance → fetched)
    (c : descriptor_class) (attname : string) (i : instance) (q : nat) :
  kind c = Some many_valued ∨ kind c = Some generic_reverse →
  sealed (_state i) = true →
  descriptor_get parent_link_fields django_get c attname i q
  = (Violation {| ua_category := many_to_many_field;
                  ua_attname := attname;
                  ua_model := i_class i |}, i, q).
Proof.
  intros Hkind Hsealed. unfold descriptor_get, guard.
  destruct c; simpl in Hkind; destruct Hkind as [?|?]; try discriminate;
    simpl; by rewrite Hsealed.
Qed.

Lemma many_valued_relation_always_guarded_witness :
  kind SealableManyToManyDescriptor = Some many_valued
  ∧ descriptor_get parent_links one_query SealableManyToManyDescriptor "previous_locations"
      (seal (from_db "SeaLion" ["id"] [VInt 1])) 0
    = (Violation {| ua_category := many_to_many_field;
                    ua_attname := "previous_locations";
                    ua_model := "SeaLion" |},
       seal (from_db "SeaLion" ["id"] [VInt 1]), 0).
Proof.
  split; [reflexivity|].
  apply (many_valued_relation_always_guarded parent_links one_query
           SealableManyToManyDescriptor "previous_locations"
           (seal (from_db "SeaLion" ["id"] [VInt 1])) 0);
    [left|]; reflexivity.
Defined.

(** C10. When a sealed instance's generic relation fails its safe-value
    check, reading it raises the guard violation with the instance
    untouched and the query count unchanged, over every persistence layer:
    the decision reads the instance only. *)
Theorem generic_relation_fails_fast
    (parent_link_fields : string → string → option (list string))
    (django_get : descriptor_class → string → instance → fetched)
    (c : descriptor_class) (attname : string) (i : instance) (q : nat) :
  kind c = Some generic_relation →
  sealed (_state i) = true →
  safe_value parent_link_fields c attname i = false →
  descriptor_get parent_link_fields django_get c attname i q
  = (Violation {| ua_category := related_field;
                  ua_attname := attname;
                  ua_model := i_class i |}, i, q).
Proof.
  intros Hkind Hsealed Hunsafe. unfold descriptor_get, guard.
  destruct c; simpl in Hkind; try discriminate.
  simpl in *. by rewrite Hsealed, Hunsafe.
Qed.

Lemma generic_relation_fails_fast_witness :
  descriptor_get parent_links one_query SealableGenericForeignKey "content_object"
    (seal (from_db "Nickname" ["id"; "content_type_id"; "object_id"]
             [VInt 1; VInt 1; VInt 1])) 0
  = (Violation {| ua_category := related_field;
                  ua_attname := "content_object";
                  ua_model := "Nickname" |},
     seal (from_db "Nickname" ["id"; "content_type_id"; "object_id"]
             [VInt 1; VInt 1; VInt 1]), 0).
Proof.
  apply (generic_relation_fails_fast parent_links one_query SealableGenericForeignKey
           "content_object"
           (seal (from_db "Nickname" ["id"; "content_type_id"; "object_id"]
                    [VInt 1; VInt 1; VInt 1])) 0); reflexivity.
Defined.




(** ** The deferred half *)

(** C9. The deferred half starts by checking that the related model
    derives from [SealableModel]; when it does not, it returns with the
    world as it was: the reverse accessor is not wrapped, and nothing else
    is.  This is so both for the function and for the queued operation when
    the registry resumes it. *)
Theorem reverse_accessor_unguarded_without_opt_in
    (w : world) (model related_model : string) (rf : RemoteField) :
  issubclass w related_model SealableModel = false →
  make_remote_field_descriptor_sealable model related_model rf w = Ok w
  ∧ (related_model = rf_model rf →
     run_operation (make_remote_field_descriptor_sealable_op model rf) w
     = Ok w).
Proof.
  intros H. unfold run_operation, make_remote_field_descriptor_sealable.
  split; [|intros <-]; by rewrite H.
Qed.

Lemma reverse_accessor_unguarded_without_opt_in_witness :
  issubclass (world_of foo_bar_world) "Foo" SealableModel = false
  ∧ make_remote_field_descriptor_sealable "Bar" "Foo" Bar_fk
      (world_of foo_bar_world) = Ok (world_of foo_bar_world).
Proof.
  split; [vm_compute; reflexivity|].
  refine (proj1 (reverse_accessor_unguarded_without_opt_in
                   (world_of foo_bar_world) "Bar" "Foo" Bar_fk _)).
  vm_compute; reflexivity.
Defined.

(** ** Wrapping twice *)

(** C8. Wrapping an attribute a second time changes nothing, and running
    the receiver (or [make_model_sealable]) a second time on a model
    leaves every class attribute as the first run left it; if the first
    run raises, so does the pair.  The second pass finds the guarded
    class in place, for which the registry has no entry. *)
Theorem wrapping_applied_once
    (w : world) (model : string) (attname : option string) :
  make_descriptor_sealable model attname w
    ≫= make_descriptor_sealable model attname
  = make_descriptor_sealable model attname w
  ∧ w_attrs <$> (make_field_descriptors_sealable model w
                   ≫= make_field_descriptors_sealable model)
    = w_attrs <$> make_field_descriptors_sealable model w
  ∧ w_attrs <$> (make_model_sealable model w ≫= make_model_sealable model)
    = w_attrs <$> make_model_sealable model w.
Proof.
  split; [|split].
  - destruct attname as [attname|]; [|done].
    rewrite make_descriptor_sealable_eq.
    set (own := owner_cell _ _ _).
    change (Ok ?x ≫= ?k) with (k x). cbv beta.
    rewrite make_descriptor_sealable_eq. f_equal.
    change (linearization (set_attrs (wrap own) w) model)
      with (linearization w model).
    change (w_attrs (set_attrs (wrap own) w))
      with (wrap_all [own] (w_attrs w)).
    rewrite owner_cell_wrap_all. fold own.
    unfold set_attrs; simpl. f_equal.
    apply (wrap_all_idemp [own]).
  - apply (assigns_twice _ _ (receiver_assigns model)
             (receiver_cells_ext model)).
  - apply (assigns_twice _ _ (model_assigns model) (model_cells_ext model)).
Qed.

(** ** [make_model_sealable] *)

Lemma loop_cells_ok w sender fs :
  (∀ f rf, f ∈ fs → remote_field f = Some rf → rf_accessor_name rf = None →
           issubclass w (rf_model rf) SealableModel = false) →
  ∃ cells, loop_cells w sender fs = Ok cells.
Proof.
  induction fs as [|f fs IH]; intros H; simpl; [by eexists|].
  destruct IH as [more ->]. { intros f' rf ?. apply H. by right. }
  unfold field_cells.
  destruct (remote_field f) as [rf|] eqn:Hrf; [|by eexists].
  repeat case_decide; try by eexists.
  destruct (issubclass w (rf_model rf) SealableModel) eqn:Hsub;
    [|by eexists].
  destruct (rf_accessor_name rf) as [accessor|] eqn:Hacc; [by eexists|].
  rewrite (H f rf) in Hsub; [discriminate|by left|done..].
Qed.

Lemma related_cells_ok w model ros :
  Forall (λ ro, is_Some (rf_accessor_name ro)) ros →
  ∃ cells, related_cells w model ros = Ok cells.
Proof.
  induction 1 as [|ro ros [accessor Hacc] _ [more IH]]; simpl; [by eexists|].
  rewrite Hacc, IH. by eexists.
Qed.

Lemma loop_cells_own w sender fs cells f :
  loop_cells w sender fs = Ok cells → f ∈ fs →
  owner_cell (w_attrs w) (linearization w sender) (name f) ∈ cells.
Proof.
  revert cells. induction fs as [|f' fs IH]; intros cells Hcells Hin.
  { by apply elem_of_nil in Hin. }
  simpl in Hcells.
  destruct (field_cells w sender f') as [c|] eqn:Hc; [|done].
  destruct (loop_cells w sender fs) as [more|]; [|done].
  injection Hcells as <-.
  apply elem_of_cons in Hin as [->|Hin].
  - apply elem_of_app. left. unfold field_cells in Hc.
    destruct (remote_field f') as [rf|].
    2:{ injection Hc as <-. by left. }
    repeat case_decide; try (injection Hc as <-; by left).
    destruct (issubclass _ _ _); [|injection Hc as <-; by left].
    destruct (rf_accessor_name rf); [|done]. injection Hc as <-. by left.
  - apply elem_of_app. right. by apply IH.
Qed.




Lemma field_cells_Raise w sender f e :
  field_cells w sender f = Raise e ↔
  e = TypeError ∧ sender ∈ all_models w
  ∧ ∃ rf, remote_field f = Some rf ∧ rf_model rf ∈ all_models w
          ∧ issubclass w (rf_model rf) SealableModel = true
          ∧ rf_accessor_name rf = None.
Proof.
  unfold field_cells. split.
  - destruct (remote_field f) as [rf|]; [|done].
    repeat case_decide; try done.
    destruct (issubclass w (rf_model rf) SealableModel) eqn:Hsub; [|done].
    destruct (rf_accessor_name rf) eqn:Hacc; [done|].
    intros [= <-]. repeat split; [done|]. by exists rf.
  - intros (-> & Hs & rf & -> & Ht & -> & ->).
    by rewrite !decide_True by done.
Qed.

Lemma loop_cells_Raise w sender fs e :
  loop_cells w sender fs = Raise e ↔
  e = TypeError ∧ sender ∈ all_models w
  ∧ ∃ f rf, f ∈ fs ∧ remote_field f = Some rf
            ∧ rf_model rf ∈ all_models w
            ∧ issubclass w (rf_model rf) SealableModel = true
            ∧ rf_accessor_name rf = None.
Proof.
  induction fs as [|f fs IH]; simpl.
  { split; [done|]. by intros (_ & _ & f & rf & ?%elem_of_nil & _). }
  split.
  - destruct (field_cells w sender f) as [c|e'] eqn:Hf; simpl.
    + destruct (loop_cells w sender fs) as [more|e'']; simpl; [done|].
      intros [= <-]. destruct (proj1 IH eq_refl)
        as (-> & Hs & f' & rf & Hin & Hrest).
      repeat split; [done|]. exists f', rf. split; [by right|done].
    + intros [= <-]. apply field_cells_Raise in Hf as (-> & Hs & rf & Hrest).
      repeat split; [done|]. exists f, rf. split; [by left|done].
  - intros (-> & Hs & f' & rf & Hin & Hrest).
    destruct (field_cells w sender f) as [c|e'] eqn:Hf; simpl.
    + apply elem_of_cons in Hin as [->|Hin].
      * assert (field_cells w sender f = Raise TypeError) as Hraise
          by (apply field_cells_Raise; eauto).
        congruence.
      * rewrite (proj2 IH); [done|]. repeat split; [done|]. eauto.
    + apply field_cells_Raise in Hf as (-> & _). done.
Qed.






(** The second case is met by a model that Django accepts: [Contact]
    is defined without error, its relation to itself is recorded among
    its related objects, and the retrofit then raises. *)
Example make_model_sealable_nameless_related_object :
  returns contact_world = true
  ∧ default [] (w_related_objects (world_of contact_world) !! "Contact")
    = [Contact_contacts]
  ∧ make_model_sealable "Contact" (world_of contact_world) = Raise TypeError.
Proof. repeat split; vm_compute; reflexivity. Qed.




(** ** Defining a model, in closed form *)

Lemma Forall_filter_all {A} (P : A → Prop) `{∀ x, Decision (P x)} (l : list A) :
  Forall P l → filter P l = l.
Proof.
  induction 1 as [|x l Hx _ IH]; [done|].
  rewrite filter_cons_True by done. by rewrite IH.
Qed.

Lemma Forall_filter_none {A} (P : A → Prop) `{∀ x, Decision (P x)} (l : list A) :
  Forall (λ x, ¬ P x) l → filter P l = [].
Proof.
  induction 1 as [|x l Hx _ IH]; [done|].
  by rewrite filter_cons_False.
Qed.

Lemma queued_key mk model fs :
  Forall (λ p, po_key p = model) (queued mk model fs).
Proof.
  unfold queued. induction fs as [|f fs IH]; simpl; [constructor|].
  destruct (remote_field f); simpl; [by constructor|done].
Qed.

Lemma queued_more mk model fs target :
  (∀ f rf, f ∈ fs → remote_field f = Some rf → rf_model rf = target) →
  Forall (λ p, po_more p = [target]) (queued mk model fs).
Proof.
  unfold queued. induction fs as [|f fs IH]; intros H; simpl; [constructor|].
  destruct (remote_field f) as [rf|] eqn:Hrf; simpl.
  - constructor.
    + simpl. f_equal. apply (H f rf); [by left|done].
    + apply IH. intros f' rf' ?. apply H. by right.
  - apply IH. intros f' rf' ?. apply H. by right.
Qed.

Lemma queued_nil mk model fs :
  (∀ f, f ∈ fs → remote_field f = None) → queued mk model fs = [].
Proof.
  unfold queued. induction fs as [|f fs IH]; intros H; simpl; [done|].
  rewrite (H f) by (by left). apply IH. intros f' ?. apply H. by right.
Qed.

Lemma model_queue_key d :
  Forall (λ p, po_key p = d_name d) (model_queue d).
Proof.
  unfold model_queue. apply Forall_app. split; [apply queued_key|].
  destruct (eligible d); [apply queued_key|constructor].
Qed.

Lemma model_queue_more d target :
  (∀ f rf, f ∈ all_local_fields (d_meta d) → remote_field f = Some rf →
           rf_model rf = target) →
  Forall (λ p, po_more p = [target]) (model_queue d).
Proof.
  intros H. unfold model_queue. apply Forall_app.
  split; [by apply queued_more|].
  destruct (eligible d); [by apply queued_more|constructor].
Qed.

Lemma model_queue_nil d :
  (∀ f, f ∈ all_local_fields (d_meta d) → remote_field f = None) →
  model_queue d = [].
Proof.
  intros H. unfold model_queue. rewrite !queued_nil by done.
  by destruct (eligible d).
Qed.

Lemma queued_cons mk model f fs :
  queued mk model (f :: fs)
  = match remote_field f with
    | Some rf => {| po_key := model; po_more := [rf_model rf];
                    po_op := mk rf |} :: queued mk model fs
    | None => queued mk model fs
    end.
Proof. unfold queued. simpl. by destruct (remote_field f). Qed.

Lemma po_op_queued mk model fs :
  po_op <$> queued mk model fs = mk <$> relations fs.
Proof.
  induction fs as [|f fs IH]; [done|].
  rewrite queued_cons. unfold relations in *. cbn [omap list_omap].
  destruct (remote_field f); [|exact IH].
  rewrite !fmap_cons. f_equal. exact IH.
Qed.

Lemma po_op_model_queue d :
  po_op <$> model_queue d
  = (resolve_related_class (d_name d)
       <$> relations (all_local_fields (d_meta d)))
    ++ (if eligible d
        then make_remote_field_descriptor_sealable_op (d_name d)
               <$> relations (all_local_fields (d_meta d))
        else []).
Proof.
  unfold model_queue. rewrite fmap_app, po_op_queued. f_equal.
  destruct (eligible d); [apply po_op_queued|done].
Qed.

Lemma elem_of_relations rf fs :
  rf ∈ relations fs ↔ ∃ f, f ∈ fs ∧ remote_field f = Some rf.
Proof. unfold relations. apply list_elem_of_omap. Qed.

Lemma set_fields_cons model f fs m :
  set_fields model (f :: fs) m
  = set_fields model fs
      match descriptor f with
      | Some d => <[(model, name f) := d]> m
      | None => m
      end.
Proof. reflexivity. Qed.

Lemma contribute_to_class_unregistered model f w :
  model ∉ all_models w →
  contribute_to_class model f w
  = Ok {| w_classes := w_classes w;
          w_attrs := set_fields model [f] (w_attrs w);
          w_related_objects := w_related_objects w;
          all_models := all_models w;
          pending_operations :=
            pending_operations w
            ++ queued (resolve_related_class model) model [f] |}.
Proof.
  intros Hw. rewrite queued_cons, set_fields_cons.
  unfold contribute_to_class, lazy_related_operation.
  cbn [lazy_model_operation].
  destruct (descriptor f) as [d|], (remote_field f) as [rf|];
    cbn [all_models set_attrs]; rewrite ?decide_False by done;
    unfold queued; simpl; rewrite ?app_nil_r; by destruct w.
Qed.

(** The fields of a model that is not registered yet store their
    descriptors and queue their relations. *)
Lemma contribute_unregistered model fs w :
  model ∉ all_models w →
  for_each (contribute_to_class model) fs w
  = Ok {| w_classes := w_classes w;
          w_attrs := set_fields model fs (w_attrs w);
          w_related_objects := w_related_objects w;
          all_models := all_models w;
          pending_operations :=
            pending_operations w
            ++ queued (resolve_related_class model) model fs |}.
Proof.
  revert w. induction fs as [|f fs IH]; intros w Hw.
  { unfold queued; simpl. rewrite app_nil_r. by destruct w. }
  cbn [for_each]. rewrite contribute_to_class_unregistered by done.
  change (Ok ?x ≫= ?k) with (k x). cbv beta.
  rewrite IH by done. simpl. rewrite <- app_assoc. do 3 f_equal.
  unfold queued. simpl. by destruct (remote_field f).
Qed.

Lemma make_field_sealable_unregistered sender f w :
  sender ∉ all_models w →
  make_field_sealable sender f w
  = Ok {| w_classes := w_classes w;
          w_attrs := wrap_all (own_cells w sender [f]) (w_attrs w);
          w_related_objects := w_related_objects w;
          all_models := all_models w;
          pending_operations :=
            pending_operations w
            ++ queued (make_remote_field_descriptor_sealable_op sender)
                 sender [f] |}.
Proof.
  intros Hw. rewrite queued_cons.
  unfold make_field_sealable. rewrite make_descriptor_sealable_eq.
  change (Ok ?x ≫= ?k) with (k x). cbv beta.
  unfold lazy_related_operation. cbn [lazy_model_operation].
  destruct (remote_field f) as [rf|];
    cbn [all_models set_attrs]; rewrite ?decide_False by done;
    unfold queued; simpl; rewrite ?app_nil_r; by destruct w.
Qed.

(** The loop of the receiver on a model that is not registered yet. *)
Lemma seal_fields_unregistered sender fs w :
  sender ∉ all_models w →
  for_each (make_field_sealable sender) fs w
  = Ok {| w_classes := w_classes w;
          w_attrs := wrap_all (own_cells w sender fs) (w_attrs w);
          w_related_objects := w_related_objects w;
          all_models := all_models w;
          pending_operations :=
            pending_operations w
            ++ queued (make_remote_field_descriptor_sealable_op sender)
                 sender fs |}.
Proof.
  revert w. induction fs as [|f fs IH]; intros w Hw.
  { unfold queued, wrap_all; simpl. rewrite app_nil_r. by destruct w. }
  cbn [for_each]. rewrite make_field_sealable_unregistered by done.
  change (Ok ?x ≫= ?k) with (k x). cbv beta.
  rewrite IH by done. simpl. rewrite <- app_assoc. do 2 f_equal.
  - set (own := owner_cell _ _ (name f)).
    unfold own_cells. simpl. fold own. f_equal.
    apply list_fmap_ext. intros _ f' _.
    apply (owner_cell_wrap_all [own]).
  - f_equal. unfold queued. simpl. by destruct (remote_field f).
Qed.

(** Defining a model that is not registered yet, up to its registration. *)
Lemma define_model_eq d w :
  d_name d ∉ all_models w →
  abstract (d_meta d) = false →
  define_model d w
  = do_pending_operations (d_name d)
      {| w_classes :=
           <[d_name d := {| mro := d_mro d; _meta := d_meta d |}]>
             (w_classes w);
         w_attrs := prepare_attrs d (w_attrs w);
         w_related_objects := w_related_objects w;
         all_models := {[d_name d]} ∪ all_models w;
         pending_operations := pending_operations w ++ model_queue d |}.
Proof.
  intros Hw Habs. unfold define_model.
  rewrite contribute_unregistered by done.
  change (Ok ?x ≫= ?k) with (k x). cbv beta. rewrite Habs.
  unfold class_prepared, make_field_descriptors_sealable.
  set (w1 := {| w_classes := _ |}).
  assert (linearization w1 (d_name d) = d_name d :: d_mro d) as Hlin.
  { unfold linearization, w1. simpl. by rewrite lookup_insert_eq. }
  unfold issubclass. rewrite Hlin.
  unfold prepare_attrs, model_queue, eligible. rewrite Habs. simpl.
  destruct (bool_decide (SealableModel ∈ d_name d :: d_mro d)); simpl.
  2:{ unfold register_model. simpl. by rewrite app_nil_r. }
  rewrite lookup_insert_eq. simpl. rewrite Habs. simpl.
  destruct (proxy (d_meta d)); simpl.
  { unfold register_model. simpl. by rewrite app_nil_r. }
  rewrite seal_fields_unregistered by done.
  change (Ok ?x ≫= ?k) with (k x). cbv beta.
  unfold register_model. simpl. f_equal. f_equal.
  - unfold own_cells. by rewrite Hlin.
  - by rewrite <- app_assoc.
Qed.

Lemma do_pending_operations_split model w before waiting :
  pending_operations w = before ++ waiting →
  Forall (λ p, po_key p ≠ model) before →
  Forall (λ p, po_key p = model) waiting →
  do_pending_operations model w
  = for_each resume waiting (set_pending (λ _, before) w).
Proof.
  intros Hp Hbefore Hwaiting. unfold do_pending_operations.
  rewrite Hp, !filter_app.
  rewrite (Forall_filter_all (λ p, po_key p = model) waiting) by done.
  rewrite (Forall_filter_none (λ p, po_key p = model) before) by done.
  rewrite (Forall_filter_all (λ p, po_key p ≠ model) before) by done.
  rewrite (Forall_filter_none (λ p, po_key p ≠ model) waiting).
  2:{ eapply Forall_impl; [exact Hwaiting|]. simpl. intros p Hk Hn. done. }
  by rewrite app_nil_r.
Qed.

Lemma run_operation_all_models op w w' :
  run_operation op w = Ok w' → all_models w' = all_models w.
Proof.
  destruct op as [model rf|model rf]; simpl.
  - unfold contribute_to_related_class.
    destruct (rf_hidden rf); [by intros [= <-]|].
    destruct (rf_accessor_name rf); [by intros [= <-]|done].
  - unfold make_remote_field_descriptor_sealable.
    destruct (negb _); [by intros [= <-]|].
    destruct (rf_accessor_name rf) as [accessor|]; [|done].
    rewrite make_descriptor_sealable_eq. by intros [= <-].
Qed.

Lemma lazy_model_operation_ready op keys w :
  Forall (λ k, k ∈ all_models w) keys →
  lazy_model_operation op keys w = run_operation op w.
Proof.
  induction 1 as [|k keys Hk _ IH]; simpl; [done|].
  by rewrite decide_True.
Qed.

(** Operations whose models are all registered run one after the other. *)
Lemma resume_ready waiting w :
  Forall (λ p, Forall (λ k, k ∈ all_models w) (po_more p)) waiting →
  for_each resume waiting w = for_each run_operation (po_op <$> waiting) w.
Proof.
  revert w. induction waiting as [|p waiting IH]; intros w Hready; [done|].
  apply Forall_cons in Hready as [Hp Hready].
  rewrite fmap_cons. cbn [for_each].
  change (resume p w) with (lazy_model_operation (po_op p) (po_more p) w).
  rewrite lazy_model_operation_ready by done.
  destruct (run_operation (po_op p) w) as [w'|e] eqn:Hrun; [|done].
  change (Ok ?x ≫= ?k) with (k x). cbv beta.
  apply IH. by rewrite (run_operation_all_models _ _ _ Hrun).
Qed.

(** Operations whose target is not registered go back to the queue, now
    waiting for the target. *)
Lemma resume_waiting target waiting w :
  target ∉ all_models w →
  Forall (λ p, po_more p = [target]) waiting →
  for_each resume waiting w
  = Ok (set_pending
          (λ ops, ops ++ ((λ p, {| po_key := target; po_more := [];
                                   po_op := po_op p |}) <$> waiting)) w).
Proof.
  intros Ht. revert w Ht.
  induction waiting as [|p waiting IH]; intros w Ht Hmore.
  { simpl. by rewrite set_pending_nil. }
  apply Forall_cons in Hmore as [Hp Hmore].
  rewrite fmap_cons. cbn [for_each].
  change (resume p w) with (lazy_model_operation (po_op p) (po_more p) w).
  rewrite Hp. cbn [lazy_model_operation].
  rewrite decide_False by done.
  change (Ok ?x ≫= ?k) with (k x). cbv beta.
  rewrite IH by done. unfold set_pending; simpl.
  by rewrite <- app_assoc.
Qed.

(** ** Two definitions commute *)











(** Defining a model whose relations all target a model that is not
    registered yet: its operations end up waiting for the target. *)
Lemma define_model_target_missing d target w :
  d_name d ∉ all_models w → target ∉ all_models w → d_name d ≠ target →
  abstract (d_meta d) = false →
  Forall (λ p, po_key p ≠ d_name d) (pending_operations w) →
  (∀ f rf, f ∈ all_local_fields (d_meta d) → remote_field f = Some rf →
           rf_model rf = target) →
  define_model d w
  = Ok {| w_classes :=
            <[d_name d := {| mro := d_mro d; _meta := d_meta d |}]>
              (w_classes w);
          w_attrs := prepare_attrs d (w_attrs w);
          w_related_objects := w_related_objects w;
          all_models := {[d_name d]} ∪ all_models w;
          pending_operations :=
            pending_operations w
            ++ ((λ p, {| po_key := target; po_more := [];
                         po_op := po_op p |}) <$> model_queue d) |}.
Proof.
  intros Hd Ht Hne Habs Hpending Htargets.
  rewrite define_model_eq by done.
  rewrite (do_pending_operations_split _ _ (pending_operations w)
             (model_queue d)); [|done..|apply model_queue_key].
  rewrite (resume_waiting target).
  - reflexivity.
  - simpl. apply not_elem_of_union. split; [|done].
    apply not_elem_of_singleton. congruence.
  - by apply model_queue_more.
Qed.

(** Defining a model whose relations all target a registered model: its
    operations run when it is registered. *)
Lemma define_model_target_registered d target w :
  d_name d ∉ all_models w → target ∈ all_models w →
  abstract (d_meta d) = false →
  Forall (λ p, po_key p ≠ d_name d) (pending_operations w) →
  (∀ f rf, f ∈ all_local_fields (d_meta d) → remote_field f = Some rf →
           rf_model rf = target) →
  define_model d w
  = for_each run_operation (po_op <$> model_queue d)
      {| w_classes :=
           <[d_name d := {| mro := d_mro d; _meta := d_meta d |}]>
             (w_classes w);
         w_attrs := prepare_attrs d (w_attrs w);
         w_related_objects := w_related_objects w;
         all_models := {[d_name d]} ∪ all_models w;
         pending_operations := pending_operations w |}.
Proof.
  intros Hd Ht Habs Hpending Htargets.
  rewrite define_model_eq by done.
  rewrite (do_pending_operations_split _ _ (pending_operations w)
             (model_queue d)); [|done..|apply model_queue_key].
  rewrite resume_ready; [reflexivity|].
  eapply Forall_impl; [by apply (model_queue_more d target)|].
  intros p ->. simpl. constructor; [|constructor].
  by apply elem_of_union_r.
Qed.

(** Defining a model without relations, when operations are waiting for
    it: they run when it is registered. *)
Lemma define_model_awaited d waiting before w :
  d_name d ∉ all_models w →
  abstract (d_meta d) = false →
  pending_operations w = before ++ waiting →
  Forall (λ p, po_key p ≠ d_name d) before →
  Forall (λ p, po_key p = d_name d ∧ po_more p = []) waiting →
  (∀ f, f ∈ all_local_fields (d_meta d) → remote_field f = None) →
  define_model d w
  = for_each run_operation (po_op <$> waiting)
      {| w_classes :=
           <[d_name d := {| mro := d_mro d; _meta := d_meta d |}]>
             (w_classes w);
         w_attrs := prepare_attrs d (w_attrs w);
         w_related_objects := w_related_objects w;
         all_models := {[d_name d]} ∪ all_models w;
         pending_operations := before |}.
Proof.
  intros Hd Habs Hpending Hbefore Hwaiting Hleaf.
  rewrite define_model_eq by done.
  rewrite model_queue_nil, app_nil_r by done.
  rewrite (do_pending_operations_split _ _ before waiting); [|done..|].
  2:{ eapply Forall_impl; [exact Hwaiting|]. by intros p [? _]. }
  rewrite resume_ready; [reflexivity|].
  eapply Forall_impl; [exact Hwaiting|]. intros p [_ ->]. constructor.
Qed.

(** ** Operations in closed form *)










(** ** Changes that touch different attribute names commute *)























(** ** Two definitions, in closed form *)















(** Worlds with the same outcome have the same accessors, and every
    attribute read on an instance, sealed or not, behaves the same. *)
Lemma same_outcome_read_attribute w u :
  same_outcome w u →
  (∀ model attname, getattr w model attname = getattr u model attname)
  ∧ ∀ parent_link_fields django_get i attname queries,
      read_attribute parent_link_fields django_get w i attname queries
      = read_attribute parent_link_fields django_get u i attname queries.
Proof.
  intros (Hclasses & Hattrs & _).
  assert (∀ model attname, getattr w model attname = getattr u model attname)
    as Hget.
  { intros model attname. unfold getattr.
    by rewrite Hattrs, (linearization_ext w u). }
  split; [done|]. intros pl dg i attname q. unfold read_attribute.
  by rewrite Hget.
Qed.




(** In that instance both orders return; the reverse accessor of
    [Keeper]'s relation to itself is guarded, the one that lands on
    [Pool] is not ([Pool] does not derive from [SealableModel]), and
    neither is the one of the relation that [Pool] declares (the receiver
    does nothing for [Pool]). *)
Example keeper_and_pool :
  returns keeper_then_pool = true
  ∧ returns pool_then_keeper = true
  ∧ getattr (world_of keeper_then_pool) "Keeper" "deputy_of"
    = Some ("Keeper", SealableReverseOneToOneDescriptor)
  ∧ getattr (world_of keeper_then_pool) "Pool" "keepers"
    = Some ("Pool", ReverseManyToOneDescriptor)
  ∧ getattr (world_of keeper_then_pool) "Keeper" "pools"
    = Some ("Keeper", ReverseManyToOneDescriptor)
  ∧ getattr (world_of keeper_then_pool) "Keeper" "pool"
    = Some ("Keeper", SealableForwardManyToOneDescriptor).
Proof. repeat split; vm_compute; reflexivity. Qed.

(** With [SeaLion] and [Location] neither order raises, and the reverse
    accessors that land on [Location] are guarded. *)
Example sea_lion_then_location :
  returns (define_model SeaLion django_world ≫= define_model Location) = true
  ∧ isinstance
      (world_of (define_model SeaLion django_world ≫= define_model Location))
      "Location" "visitors" SealableReverseManyToOneDescriptor = true
  ∧ isinstance
      (world_of (define_model SeaLion django_world ≫= define_model Location))
      "Location" "previous_visitors" SealableManyToManyDescriptor = true
  ∧ isinstance
      (world_of (define_model SeaLion django_world ≫= define_model Location))
      "SeaLion" "location" SealableForwardManyToOneDescriptor = true
  ∧ pending_operations
      (world_of (define_model SeaLion django_world ≫= define_model Location))
    = [].
Proof. repeat split; vm_compute; reflexivity. Qed.

(* ===================================================================== *)
(** * Part VII: further properties of seal/models.py *)
(* ===================================================================== *)

(** ** [make_descriptor_sealable] *)

Lemma mro_lookup_wrap_all cells attrs classes attname :
  mro_lookup (wrap_all cells attrs) classes attname
  = (λ found, (found.1,
               if decide (Some (found.1, attname) ∈ cells)
               then seal_cls found.2 else found.2))
      <$> mro_lookup attrs classes attname.
Proof.
  induction classes as [|c rest IH]; [done|]. simpl.
  rewrite lookup_wrap_all.
  destruct (attrs !! (c, attname)) as [d|] eqn:Hd; simpl.
  - by destruct (decide (Some (c, attname) ∈ cells)).
  - rewrite IH. by destruct (decide (Some (c, attname) ∈ cells)).
Qed.

Lemma getattr_owner_cell w model attname owner d :
  getattr w model attname = Some (owner, d) →
  owner_cell (w_attrs w) (linearization w model) attname
  = Some (owner, attname).
Proof. unfold getattr, owner_cell. by intros ->. Qed.

Lemma getattr_after_assignment w other attname owner d :
  getattr w other attname = Some (owner, d) →
  getattr (set_attrs (wrap (Some (owner, attname))) w) other attname
  = Some (owner, seal_cls d)
  ∧ w_attrs (set_attrs (wrap (Some (owner, attname))) w) !! (owner, attname)
    = Some (seal_cls d).
Proof.
  intros Hother. split.
  - unfold getattr in *. simpl.
    change (alter seal_cls (owner, attname) (w_attrs w))
      with (wrap_all [Some (owner, attname)] (w_attrs w)).
    change (linearization (set_attrs _ w) other) with (linearization w other).
    rewrite mro_lookup_wrap_all, Hother. simpl.
    by rewrite decide_True by (by left).
  - simpl. rewrite lookup_alter_eq.
    unfold getattr in Hother. apply mro_lookup_Some in Hother as [_ ->].
    done.
Qed.

(** X1. [make_descriptor_sealable] raises only for a name that is not a
    string, and then it is [TypeError].  Otherwise it returns; classes,
    registered models, related objects, the queue and the attribute names
    of every class are as before, and at most one entry has changed: the
    one [getattr] found, from a class that is a key of the registry to
    the registry's value for it. *)
Theorem make_descriptor_sealable_frame
    (w : world) (model : string) (attname : option string) :
  match make_descriptor_sealable model attname w with
  | Raise e => e = TypeError ∧ attname = None
  | Ok w' =>
      same_shape w w'
      ∧ pending_operations w' = pending_operations w
      ∧ ∀ k, w_attrs w' !! k = w_attrs w !! k
             ∨ ∃ a owner d s,
                 attname = Some a ∧ k = (owner, a)
                 ∧ getattr w model a = Some (owner, d)
                 ∧ sealable_descriptor_classes d = Some s
                 ∧ w_attrs w' !! k = Some s
  end.
Proof.
  destruct attname as [a|]; simpl; [|done].
  destruct (getattr w model a) as [[owner d]|] eqn:Hget.
  2:{ split; [apply same_shape_refl|]. split; [done|]. by left. }
  destruct (sealable_descriptor_classes d) as [s|] eqn:Hs.
  2:{ split; [apply same_shape_refl|]. split; [done|]. by left. }
  pose proof Hget as Hcell. unfold getattr in Hcell.
  apply mro_lookup_Some in Hcell as [_ Hcell].
  split; [|split; [done|]].
  - repeat split; simpl; try done; intros H;
      rewrite lookup_insert in *; by case_decide; subst; eauto.
  - intros k. simpl. destruct (decide (k = (owner, a))) as [->|Hk].
    + right. exists a, owner, d, s. by rewrite lookup_insert_eq.
    + left. by rewrite lookup_insert_ne.
Qed.

(** X2. The assignment changes the object [getattr] found, which belongs
    to the class that owns it: when the name is inherited, the base's
    descriptor is the one that becomes guarded, and every class that
    reads the same entry sees the guarded class from then on. *)
Theorem make_descriptor_sealable_shared
    (w w' : world) (model other attname owner : string)
    (d : descriptor_class) :
  getattr w model attname = Some (owner, d) →
  getattr w other attname = Some (owner, d) →
  make_descriptor_sealable model (Some attname) w = Ok w' →
  getattr w' other attname = Some (owner, seal_cls d)
  ∧ w_attrs w' !! (owner, attname) = Some (seal_cls d).
Proof.
  intros Hmodel Hother. rewrite make_descriptor_sealable_eq.
  rewrite (getattr_owner_cell _ _ _ _ _ Hmodel). intros [= <-].
  by apply getattr_after_assignment.
Qed.

Lemma make_descriptor_sealable_shared_witness :
  getattr (world_of (make_descriptor_sealable "Baz" (Some "foo")
                       (world_of foo_bar_baz_world))) "Bar" "foo"
  = Some ("Bar", seal_cls DeferredAttribute).
Proof.
  refine (proj1 (make_descriptor_sealable_shared
                   (world_of foo_bar_baz_world)
                   (world_of (make_descriptor_sealable "Baz" (Some "foo")
                                (world_of foo_bar_baz_world)))
                   "Baz" "Bar" "foo" "Bar" DeferredAttribute _ _ _));
    vm_compute; reflexivity.
Defined.

(** X3. Two calls of [make_descriptor_sealable] commute, whatever the
    models and names: the same world results, or both orders raise. *)
Theorem make_descriptor_sealable_commute
    (w : world) (model1 model2 : string) (attname1 attname2 : option string) :
  make_descriptor_sealable model1 attname1 w
    ≫= make_descriptor_sealable model2 attname2
  = make_descriptor_sealable model2 attname2 w
    ≫= make_descriptor_sealable model1 attname1.
Proof.
  destruct attname1 as [a1|], attname2 as [a2|]; try done.
  - rewrite !make_descriptor_sealable_eq.
    change (Ok ?x ≫= ?k) with (k x). cbv beta.
    rewrite !make_descriptor_sealable_eq.
    set (k1 := owner_cell (w_attrs w) (linearization w model1) a1).
    set (k2 := owner_cell (w_attrs w) (linearization w model2) a2).
    assert (∀ k model a,
              owner_cell (w_attrs (set_attrs (wrap k) w))
                (linearization (set_attrs (wrap k) w) model) a
              = owner_cell (w_attrs w) (linearization w model) a) as Hown.
    { intros k model a. apply (owner_cell_wrap_all [k]). }
    rewrite !Hown. fold k1 k2. f_equal. unfold set_attrs; simpl. f_equal.
    apply (wrap_all_comm [k2] [k1]).
  - by rewrite make_descriptor_sealable_eq.
  - by rewrite make_descriptor_sealable_eq.
Qed.

(** ** [make_remote_field_descriptor_sealable] *)

(** X4. When the related model derives from [SealableModel], the deferred
    half raises [TypeError] for a relation without accessor name, does
    nothing when the accessor is not an attribute of the related model
    (a hidden reverse side), and otherwise leaves the accessor guarded:
    the entry [getattr] found holds the guarded class, and no other entry,
    nor anything else in the world, has changed. *)
Theorem make_remote_field_descriptor_sealable_guards
    (w : world) (model related_model : string) (rf : RemoteField) :
  issubclass w related_model SealableModel = true →
  (rf_accessor_name rf = None →
   make_remote_field_descriptor_sealable model related_model rf w
   = Raise TypeError)
  ∧ (∀ accessor,
       rf_accessor_name rf = Some accessor →
       getattr w related_model accessor = None →
       make_remote_field_descriptor_sealable model related_model rf w = Ok w)
  ∧ (∀ accessor owner d,
       rf_accessor_name rf = Some accessor →
       getattr w related_model accessor = Some (owner, d) →
       ∃ w', make_remote_field_descriptor_sealable model related_model rf w
             = Ok w'
             ∧ getattr w' related_model accessor = Some (owner, seal_cls d)
             ∧ same_shape w w'
             ∧ pending_operations w' = pending_operations w
             ∧ ∀ k, k ≠ (owner, accessor) →
                    w_attrs w' !! k = w_attrs w !! k).
Proof.
  intros Hsub. unfold make_remote_field_descriptor_sealable.
  rewrite Hsub. simpl. split; [by intros ->|]. split.
  - intros accessor -> Hget. rewrite make_descriptor_sealable_eq.
    unfold getattr, owner_cell in *. rewrite Hget. simpl.
    by rewrite set_attrs_id.
  - intros accessor owner d -> Hget.
    rewrite make_descriptor_sealable_eq.
    rewrite (getattr_owner_cell _ _ _ _ _ Hget).
    eexists. split; [done|].
    split; [by apply getattr_after_assignment|].
    split; [apply (same_shape_wrap [Some (owner, accessor)] (λ ops, ops))|].
    split; [done|].
    intros k Hk. simpl. by rewrite lookup_alter_ne.
Qed.

Lemma make_remote_field_descriptor_sealable_guards_witness :
  issubclass (world_of location_visit_world) "Location" SealableModel = true
  ∧ getattr (world_of location_visit_world) "Location" "visits"
    = Some ("Location", ReverseManyToOneDescriptor)
  ∧ getattr
      (world_of (make_remote_field_descriptor_sealable "Visit" "Location"
                   Visit_place (world_of location_visit_world)))
      "Location" "visits"
    = Some ("Location", SealableReverseManyToOneDescriptor).
Proof.
  assert (issubclass (world_of location_visit_world) "Location" SealableModel
          = true) as Hsub by (vm_compute; reflexivity).
  assert (getattr (world_of location_visit_world) "Location" "visits"
          = Some ("Location", ReverseManyToOneDescriptor)) as Hget
    by (vm_compute; reflexivity).
  split; [exact Hsub|]. split; [exact Hget|].
  destruct (proj2 (proj2 (make_remote_field_descriptor_sealable_guards
                            (world_of location_visit_world)
                            "Visit" "Location" Visit_place Hsub))
              "visits" "Location" ReverseManyToOneDescriptor eq_refl Hget)
    as (w' & -> & Hnew & _).
  exact Hnew.
Defined.

(** ** [make_field_descriptors_sealable] *)

(** X5. Called on a model class that exists, the receiver raises exactly
    when it gets past its early returns, the sender is already
    registered, and one of its local fields has a relation without
    accessor name to a registered model that derives from
    [SealableModel]; the exception is the [TypeError] of [getattr]. *)
Theorem receiver_raises_iff
    (w : world) (sender : string) (cls : class_obj) (e : exn) :
  w_classes w !! sender = Some cls →
  make_field_descriptors_sealable sender w = Raise e ↔
  e = TypeError
  ∧ issubclass w sender SealableModel = true
  ∧ abstract (_meta cls) || proxy (_meta cls) = false
  ∧ sender ∈ all_models w
  ∧ ∃ f rf, f ∈ all_local_fields (_meta cls) ∧ remote_field f = Some rf
            ∧ rf_model rf ∈ all_models w
            ∧ issubclass w (rf_model rf) SealableModel = true
            ∧ rf_accessor_name rf = None.
Proof.
  intros Hcls.
  pose proof (receiver_assigns sender w) as Hop.
  unfold receiver_cells in Hop. rewrite Hcls in Hop.
  destruct (issubclass w sender SealableModel) eqn:Hsub; simpl in Hop.
  2:{ destruct Hop as [extra ->]. split; [done|]. by intros (_ & ? & _). }
  destruct (abstract (_meta cls) || proxy (_meta cls)) eqn:Hconcrete.
  { destruct Hop as [extra ->]. split; [done|]. by intros (_ & _ & ? & _). }
  destruct (loop_cells w sender (all_local_fields (_meta cls)))
    as [cells|e'] eqn:Hloop.
  - destruct Hop as [extra ->]. split; [done|].
    intros (-> & _ & _ & Hrest).
    assert (loop_cells w sender (all_local_fields (_meta cls))
            = Raise TypeError) as Hraise by (by apply loop_cells_Raise).
    congruence.
  - rewrite Hop. apply loop_cells_Raise in Hloop as (-> & Hrest). split.
    + intros [= <-]. done.
    + by intros (-> & _).
Qed.

Lemma receiver_raises_iff_witness :
  make_field_descriptors_sealable "Friend" friend_registered
  = Raise TypeError.
Proof.
  apply (receiver_raises_iff friend_registered "Friend"
           {| mro := d_mro Friend; _meta := d_meta Friend |} TypeError).
  - vm_compute; reflexivity.
  - split; [reflexivity|].
    split; [vm_compute; reflexivity|].
    split; [reflexivity|].
    split; [apply (bool_decide_unpack _); vm_compute; exact I|].
    exists {| name := "friends";
              descriptor := Some ManyToManyDescriptor;
              remote_field := Some Friend_friends |}, Friend_friends.
    split; [right; left|].
    split; [reflexivity|].
    split; [apply (bool_decide_unpack _); vm_compute; exact I|].
    split; [vm_compute; reflexivity|reflexivity].
Defined.

Lemma own_cells_elem w model fs k :
  Some k ∈ own_cells w model fs → k.1 ∈ linearization w model.
Proof.
  unfold own_cells. intros (f & Hk & _)%list_elem_of_fmap.
  symmetry in Hk. by apply owner_cell_elem in Hk as [? _].
Qed.

(** X6. While the sender is not registered (as when [class_prepared] is
    sent, before [register_model]), the receiver never raises and calls
    no deferred half: if it gets past its early returns it queues one
    operation per relation field, in field order, each waiting for the
    sender and then for the target, and otherwise it queues nothing.
    Classes and registered models stay as they were, and only entries of
    the sender and its bases can change, so no reverse accessor on
    another model is touched at that time. *)
Theorem receiver_before_registration
    (w : world) (sender : string) (cls : class_obj) :
  sender ∉ all_models w →
  w_classes w !! sender = Some cls →
  ∃ w', make_field_descriptors_sealable sender w = Ok w'
        ∧ same_shape w w'
        ∧ pending_operations w'
          = pending_operations w
            ++ (if issubclass w sender SealableModel
                   && negb (abstract (_meta cls) || proxy (_meta cls))
                then queued (make_remote_field_descriptor_sealable_op sender)
                       sender (all_local_fields (_meta cls))
                else [])
        ∧ ∀ k, k.1 ∉ linearization w sender →
               w_attrs w' !! k = w_attrs w !! k.
Proof.
  intros Hs Hcls. unfold make_field_descriptors_sealable. rewrite Hcls.
  destruct (issubclass w sender SealableModel); simpl.
  2:{ exists w. rewrite app_nil_r. split; [done|].
      split; [apply same_shape_refl|done]. }
  destruct (abstract (_meta cls) || proxy (_meta cls)); simpl.
  { exists w. rewrite app_nil_r. split; [done|].
    split; [apply same_shape_refl|done]. }
  rewrite seal_fields_unregistered by done.
  eexists. split; [done|]. split; [|split; [done|]].
  - repeat split; simpl; try done; apply wrap_all_is_Some.
  - intros k Hk. simpl. rewrite lookup_wrap_all, decide_False; [done|].
    intros Hin. by apply own_cells_elem in Hin.
Qed.

Lemma receiver_before_registration_witness :
  pending_operations
    (world_of (make_field_descriptors_sealable "SeaLion"
                 sea_lion_class_created))
  = pending_operations sea_lion_class_created
    ++ queued (make_remote_field_descriptor_sealable_op "SeaLion") "SeaLion"
         (all_local_fields (d_meta SeaLion)).
Proof.
  destruct (receiver_before_registration sea_lion_class_created "SeaLion"
              {| mro := d_mro SeaLion; _meta := d_meta SeaLion |})
    as (w' & -> & _ & Hpending & _).
  - apply (bool_decide_unpack _). vm_compute. exact I.
  - vm_compute; reflexivity.
  - cbn [world_of]. rewrite Hpending. f_equal.
Defined.

(** X7. When the receiver gets past its early returns and returns, the
    descriptor that [getattr] finds under the name of any local field of
    the sender, on the sender or on a base, holds the guarded variant of
    its class (or its own class when the registry has no entry for it). *)
Theorem receiver_guards_local_fields
    (w w' : world) (sender : string) (cls : class_obj) (f : Field)
    (owner : string) (d : descriptor_class) :
  make_field_descriptors_sealable sender w = Ok w' →
  issubclass w sender SealableModel = true →
  w_classes w !! sender = Some cls →
  abstract (_meta cls) || proxy (_meta cls) = false →
  f ∈ all_local_fields (_meta cls) →
  getattr w sender (name f) = Some (owner, d) →
  getattr w' sender (name f) = Some (owner, seal_cls d).
Proof.
  intros Hrun Hsub Hcls Hconcrete Hf Hget.
  pose proof (receiver_assigns sender w) as Hop.
  unfold receiver_cells in Hop. rewrite Hsub, Hcls, Hconcrete in Hop.
  simpl in Hop.
  destruct (loop_cells w sender _) as [cells|e] eqn:Hcells; [|congruence].
  destruct Hop as [extra Hop]. rewrite Hrun in Hop. injection Hop as ->.
  pose proof (loop_cells_own _ _ _ _ f Hcells Hf) as Hown.
  rewrite (getattr_owner_cell _ _ _ _ _ Hget) in Hown.
  unfold getattr in *. simpl.
  change (linearization (set_pending _ (set_attrs _ w)) sender)
    with (linearization w sender).
  rewrite mro_lookup_wrap_all, Hget. simpl. by rewrite decide_True.
Qed.

Lemma receiver_guards_local_fields_witness :
  getattr (world_of (make_field_descriptors_sealable "SeaLion"
                       sea_lion_class_created)) "SeaLion" "location"
  = Some ("SeaLion", seal_cls ForwardManyToOneDescriptor).
Proof.
  apply (receiver_guards_local_fields sea_lion_class_created
           (world_of (make_field_descriptors_sealable "SeaLion"
                        sea_lion_class_created)) "SeaLion"
           {| mro := d_mro SeaLion; _meta := d_meta SeaLion |}
           (ForeignKey "location" "Location" "visitors")).
  - vm_compute; reflexivity.
  - vm_compute; reflexivity.
  - vm_compute; reflexivity.
  - reflexivity.
  - right. right. left.
  - vm_compute; reflexivity.
Defined.

(** X8. Whatever the receiver does when it returns, it only guards: the
    classes, the registered models and the attribute names of every class
    are unchanged, the queue only grows at its end, and every entry either
    keeps its class or goes from a key of the registry to the registry's
    value.  An entry whose class is not a key of the registry, a guarded
    class in particular, is never changed. *)
Theorem receiver_only_guards (w w' : world) (sender : string) :
  make_field_descriptors_sealable sender w = Ok w' →
  same_shape w w'
  ∧ (∃ extra, pending_operations w' = pending_operations w ++ extra)
  ∧ (∀ k d, w_attrs w !! k = Some d →
            w_attrs w' !! k = Some d
            ∨ ∃ s, sealable_descriptor_classes d = Some s
                   ∧ w_attrs w' !! k = Some s)
  ∧ (∀ k d, w_attrs w !! k = Some d →
            sealable_descriptor_classes d = None →
            w_attrs w' !! k = Some d).
Proof.
  intros Hrun. pose proof (receiver_assigns sender w) as Hop.
  destruct (receiver_cells sender w) as [cells|e]; [|congruence].
  destruct Hop as [extra Hop]. rewrite Hrun in Hop. injection Hop as ->.
  split; [apply same_shape_wrap|]. split; [by exists extra|]. split.
  - intros k d Hd. simpl. rewrite lookup_wrap_all, Hd.
    case_decide; [|by left]. simpl.
    destruct (sealable_descriptor_classes d) as [s|] eqn:Hs.
    + right. exists s. by rewrite (seal_cls_registered _ _ Hs).
    + left. by rewrite (seal_cls_unregistered _ Hs).
  - intros k d Hd Hs. simpl. rewrite lookup_wrap_all, Hd.
    case_decide; [|done]. simpl. by rewrite (seal_cls_unregistered _ Hs).
Qed.

Lemma receiver_only_guards_witness :
  same_shape sea_lion_class_created
    (world_of (make_field_descriptors_sealable "SeaLion"
                 sea_lion_class_created)).
Proof.
  apply (receiver_only_guards sea_lion_class_created
           (world_of (make_field_descriptors_sealable "SeaLion"
                        sea_lion_class_created)) "SeaLion").
  vm_compute; reflexivity.
Defined.

(** ** Defining a model with relations: the reverse accessors *)

Lemma for_each_app {A} (body : A → world → result world) l1 l2 w :
  for_each body (l1 ++ l2) w = for_each body l1 w ≫= for_each body l2.
Proof.
  revert w. induction l1 as [|x l1 IH]; intros w; [done|]. simpl.
  destruct (body x w) as [w1|e]; [|done]. apply IH.
Qed.

Lemma for_each_invariant {A} (body : A → world → result world) l
    (I : world → Prop) w w' :
  (∀ x u u', x ∈ l → body x u = Ok u' → I u → I u') →
  I w → for_each body l w = Ok w' → I w'.
Proof.
  revert w. induction l as [|x l IH]; intros w Hstep Hw; simpl.
  { by intros [= <-]. }
  destruct (body x w) as [w1|e] eqn:Hx; [|done].
  change (Ok w1 ≫= for_each body l) with (for_each body l w1).
  apply IH.
  - intros y u u' Hy. apply Hstep. by right.
  - eapply Hstep; [by left|done..].
Qed.

Lemma for_each_establish {A} (body : A → world → result world) l
    (I Q : world → Prop) x w w' :
  (∀ y u u', y ∈ l → body y u = Ok u' → I u → I u') →
  (∀ y u u', y ∈ l → body y u = Ok u' → I u → Q u → Q u') →
  (∀ u u', body x u = Ok u' → I u → Q u') →
  x ∈ l → I w → for_each body l w = Ok w' → Q w'.
Proof.
  intros HI HQ Hx. revert w. induction l as [|y l IH]; intros w Hin Hw.
  { by apply elem_of_nil in Hin. }
  simpl. destruct (body y w) as [w1|e] eqn:Hy; [|done].
  change (Ok w1 ≫= for_each body l) with (for_each body l w1).
  assert (I w1) as Hw1 by (eapply HI; [by left|done..]).
  apply elem_of_cons in Hin as [->|Hin].
  - intros Hrest.
    assert (I w' ∧ Q w') as [_ ?]; [|done].
    apply (for_each_invariant body l (λ u, I u ∧ Q u) w1 w'); [| |done].
    + intros z u u' Hz Hrun [Hu HuQ]. split.
      * eapply HI; [by right|done..].
      * eapply HQ; [by right|done..].
    + split; [done|]. by eapply Hx.
  - apply IH; [| |done..].
    + intros z u u' Hz. apply HI. by right.
    + intros z u u' Hz. apply HQ. by right.
Qed.

Lemma run_resolve_classes model rf w w' :
  run_operation (resolve_related_class model rf) w = Ok w' →
  w_classes w' = w_classes w ∧ all_models w' = all_models w.
Proof.
  simpl. unfold contribute_to_related_class.
  destruct (rf_hidden rf); [by intros [= <-]|].
  destruct (rf_accessor_name rf); [by intros [= <-]|done].
Qed.

Lemma run_resolve_attrs model rf w w' k :
  run_operation (resolve_related_class model rf) w = Ok w' →
  w_attrs w' !! k
  = if decide (rf_hidden rf = false
               ∧ rf_accessor_name rf = Some k.2 ∧ rf_model rf = k.1)
    then Some (rf_related_accessor_class rf)
    else w_attrs w !! k.
Proof.
  simpl. unfold contribute_to_related_class. destruct k as [c n].
  destruct (rf_hidden rf).
  { intros [= <-]. rewrite decide_False; [done|]. by intros [? _]. }
  destruct (rf_accessor_name rf) as [accessor|]; [|done].
  intros [= <-]. simpl. rewrite lookup_insert.
  destruct (decide ((rf_model rf, accessor) = (c, n))) as [[= <- <-]|Hne].
  - by rewrite decide_True.
  - rewrite decide_False; [done|]. intros (_ & [= ->] & <-). done.
Qed.

Lemma run_remote_attrs model rf w w' :
  run_operation (make_remote_field_descriptor_sealable_op model rf) w = Ok w' →
  w_classes w' = w_classes w
  ∧ ∃ k, w_attrs w' = wrap k (w_attrs w)
         ∧ (issubclass w (rf_model rf) SealableModel = true →
            ∃ accessor,
              rf_accessor_name rf = Some accessor
              ∧ k = owner_cell (w_attrs w)
                      (linearization w (rf_model rf)) accessor)
         ∧ (issubclass w (rf_model rf) SealableModel = false → k = None).
Proof.
  simpl. unfold make_remote_field_descriptor_sealable.
  destruct (issubclass w (rf_model rf) SealableModel); simpl.
  - destruct (rf_accessor_name rf) as [accessor|]; [|done].
    rewrite make_descriptor_sealable_eq. intros [= <-].
    split; [done|]. eexists. split; [done|]. split; [|done].
    intros _. by exists accessor.
  - intros [= <-]. split; [done|]. exists None. done.
Qed.

(** What the operations queued by a model make of the reverse accessor
    [n] on their common target. *)
Lemma model_queue_reverse_accessor d target S w' rf n :
  (∀ rf', rf' ∈ relations (all_local_fields (d_meta d)) →
          rf_model rf' = target) →
  rf ∈ relations (all_local_fields (d_meta d)) →
  rf_hidden rf = false → rf_accessor_name rf = Some n →
  (∀ rf', rf' ∈ relations (all_local_fields (d_meta d)) →
          rf_hidden rf' = false → rf_accessor_name rf' = Some n →
          rf_related_accessor_class rf' = rf_related_accessor_class rf) →
  for_each run_operation (po_op <$> model_queue d) S = Ok w' →
  w_attrs w' !! (target, n)
  = Some (if eligible d && issubclass S target SealableModel
          then seal_cls (rf_related_accessor_class rf)
          else rf_related_accessor_class rf).
Proof.
  intros Htargets Hrf Hvisible Hn Hclash.
  set (c := rf_related_accessor_class rf).
  set (rfs := relations (all_local_fields (d_meta d))) in *.
  rewrite po_op_model_queue, for_each_app. fold rfs.
  destruct (for_each run_operation (resolve_related_class (d_name d) <$> rfs) S)
    as [S1|e] eqn:Hfirst; [|done].
  change (Ok S1 ≫= ?k) with (k S1).
  (* the reverse descriptors are stored *)
  assert (w_classes S1 = w_classes S ∧ w_attrs S1 !! (target, n) = Some c)
    as [Hclasses Hstored].
  { split.
    - apply (for_each_invariant run_operation
               (resolve_related_class (d_name d) <$> rfs)
               (λ u, w_classes u = w_classes S) S S1); [|done..].
      intros op u u' (rf' & -> & _)%list_elem_of_fmap Hrun Hu.
      apply run_resolve_classes in Hrun as [-> _]. done.
    - apply (for_each_establish run_operation
               (resolve_related_class (d_name d) <$> rfs)
               (λ _, True) (λ u, w_attrs u !! (target, n) = Some c)
               (resolve_related_class (d_name d) rf) S S1); try done.
      + intros op u u' (rf' & -> & Hrf')%list_elem_of_fmap Hrun _ Hu.
        rewrite (run_resolve_attrs _ _ _ _ (target, n) Hrun).
        case_decide as Hd; [|done].
        destruct Hd as (? & ? & _). f_equal. by apply Hclash.
      + intros u u' Hrun _.
        rewrite (run_resolve_attrs _ _ _ _ (target, n) Hrun).
        rewrite decide_True; [done|]. repeat split; [done..|].
        by apply Htargets.
      + apply list_elem_of_fmap. by exists rf. }
  destruct (eligible d); simpl.
  2:{ by intros [= <-]. }
  assert (∀ u, w_classes u = w_classes S →
               issubclass u target SealableModel
               = issubclass S target SealableModel) as Hsub.
  { intros u Hu. unfold issubclass. by rewrite (linearization_ext u S). }
  destruct (issubclass S target SealableModel) eqn:Hsealable.
  - (* the deferred halves guard the accessor *)
    apply (for_each_establish run_operation
             (make_remote_field_descriptor_sealable_op (d_name d) <$> rfs)
             (λ u, w_classes u = w_classes S
                   ∧ (w_attrs u !! (target, n) = Some c
                      ∨ w_attrs u !! (target, n) = Some (seal_cls c)))
             (λ u, w_attrs u !! (target, n) = Some (seal_cls c))
             (make_remote_field_descriptor_sealable_op (d_name d) rf) S1 w').
    + intros op u u' (rf' & -> & _)%list_elem_of_fmap Hrun [Hu Hcell].
      apply run_remote_attrs in Hrun as (Hc & k & -> & _).
      split; [congruence|]. rewrite lookup_wrap.
      case_decide; [|done]. right.
      destruct Hcell as [->| ->]; simpl; [done|by rewrite seal_cls_idemp].
    + intros op u u' (rf' & -> & _)%list_elem_of_fmap Hrun _ Hcell.
      apply run_remote_attrs in Hrun as (_ & k & -> & _).
      rewrite lookup_wrap, Hcell. case_decide; [|done]. simpl.
      by rewrite seal_cls_idemp.
    + intros u u' Hrun [Hu Hcell].
      apply run_remote_attrs in Hrun as (_ & k & -> & Hk & _).
      rewrite (Htargets rf Hrf), (Hsub u Hu) in Hk.
      destruct (Hk eq_refl) as (accessor & Hacc & ->).
      rewrite Hn in Hacc. injection Hacc as <-.
      assert (is_Some (w_classes S !! target)) as [tcls Htcls].
      { unfold issubclass, linearization in Hsealable.
        destruct (w_classes S !! target); [by eexists|].
        apply bool_decide_eq_true in Hsealable.
        by apply elem_of_nil in Hsealable. }
      unfold linearization. rewrite Hu, Htcls.
      rewrite owner_cell_own by (destruct Hcell as [->| ->]; by eexists).
      rewrite lookup_wrap, decide_True by done.
      destruct Hcell as [->| ->]; simpl; [done|by rewrite seal_cls_idemp].
    + apply list_elem_of_fmap. by exists rf.
    + split; [done|by left].
  - (* the deferred halves return at once *)
    apply (for_each_invariant run_operation
             (make_remote_field_descriptor_sealable_op (d_name d) <$> rfs)
             (λ u, w_classes u = w_classes S
                   ∧ w_attrs u !! (target, n) = Some c) S1 w'); [|done].
    intros op u u' (rf' & -> & Hrf')%list_elem_of_fmap Hrun [Hu Hcell].
    apply run_remote_attrs in Hrun as (Hc & k & -> & _ & Hk).
    rewrite (Htargets rf' Hrf'), (Hsub u Hu) in Hk.
    rewrite (Hk eq_refl). split; [congruence|done].
Qed.

Lemma issubclass_new_class d w model base :
  model ≠ d_name d →
  issubclass
    {| w_classes :=
         <[d_name d := {| mro := d_mro d; _meta := d_meta d |}]> (w_classes w);
       w_attrs := prepare_attrs d (w_attrs w);
       w_related_objects := w_related_objects w;
       all_models := {[d_name d]} ∪ all_models w;
       pending_operations := pending_operations w |} model base
  = issubclass w model base.
Proof.
  intros Hne. unfold issubclass, linearization. simpl.
  by rewrite lookup_insert_ne.
Qed.

(** X9. A model whose relations all point to one registered model is
    defined (and neither call raises): the reverse accessor of each
    visible relation then sits on the target, and it is guarded exactly
    when both ends take part, that is when the receiver got past its
    early returns on the new model and the target derives from
    [SealableModel].  A relation coming from a model that does not opt
    in leaves the accessor on a sealable target unguarded. *)
Theorem relation_to_registered_target
    (w w' : world) (d : model_decl) (target : string)
    (f : Field) (rf : RemoteField) (n : string) :
  d_name d ∉ all_models w → target ∈ all_models w →
  abstract (d_meta d) = false →
  Forall (λ p, po_key p ≠ d_name d) (pending_operations w) →
  (∀ f' rf', f' ∈ all_local_fields (d_meta d) →
             remote_field f' = Some rf' → rf_model rf' = target) →
  f ∈ all_local_fields (d_meta d) → remote_field f = Some rf →
  rf_hidden rf = false → rf_accessor_name rf = Some n →
  (∀ f' rf', f' ∈ all_local_fields (d_meta d) →
             remote_field f' = Some rf' → rf_hidden rf' = false →
             rf_accessor_name rf' = Some n →
             rf_related_accessor_class rf' = rf_related_accessor_class rf) →
  define_model d w = Ok w' →
  w_attrs w' !! (target, n)
  = Some (if eligible d && issubclass w target SealableModel
          then seal_cls (rf_related_accessor_class rf)
          else rf_related_accessor_class rf).
Proof.
  intros Hd Ht Habs Hpending Htargets Hf Hrf Hvisible Hn Hclash.
  rewrite (define_model_target_registered d target) by done.
  intros Hrun.
  rewrite <- (issubclass_new_class d w target SealableModel)
    by (intros ->; done).
  apply (model_queue_reverse_accessor d target _ w' rf n); try done.
  - intros rf' (f' & ? & ?)%elem_of_relations. by apply (Htargets f').
  - apply elem_of_relations. by exists f.
  - intros rf' (f' & ? & ?)%elem_of_relations. by apply (Hclash f').
Qed.

Lemma relation_to_registered_target_witness :
  w_attrs (world_of (define_model SeaLion
                       (world_of (define_model Location django_world))))
    !! ("Location", "visitors")
  = Some SealableReverseManyToOneDescriptor.
Proof.
  rewrite (relation_to_registered_target
             (world_of (define_model Location django_world))
             (world_of (define_model SeaLion
                          (world_of (define_model Location django_world))))
             SeaLion "Location"
             (ForeignKey "location" "Location" "visitors")
             SeaLion_location "visitors").
  - vm_compute; reflexivity.
  - apply (bool_decide_unpack _). vm_compute. exact I.
  - apply (bool_decide_unpack _). vm_compute. exact I.
  - reflexivity.
  - replace (pending_operations
               (world_of (define_model Location django_world)))
      with (@nil pending) by (vm_compute; reflexivity).
    constructor.
  - intros f' rf' Hf Hrf.
    repeat (apply elem_of_cons in Hf as [->|Hf];
            [simpl in Hrf; try discriminate; by injection Hrf as <-|]).
    by apply elem_of_nil in Hf.
  - right. right. left.
  - reflexivity.
  - reflexivity.
  - reflexivity.
  - intros f' rf' Hf Hrf _ Hn.
    repeat (apply elem_of_cons in Hf as [->|Hf];
            [simpl in Hrf; try discriminate; injection Hrf as <-;
             try discriminate; reflexivity|]).
    by apply elem_of_nil in Hf.
  - vm_compute; reflexivity.
Defined.

(** X10. The same when the target is defined afterwards: A, whose
    relations all point to the missing B, is defined first, then B, which
    declares no relation.  Once B is registered the reverse accessor of
    each visible relation sits on B, guarded exactly when the receiver got
    past its early returns on A and B derives from [SealableModel]. *)
Theorem relation_to_later_target
    (w w' : world) (dA dB : model_decl)
    (f : Field) (rf : RemoteField) (n : string) :
  d_name dA ≠ d_name dB →
  d_name dA ∉ all_models w → d_name dB ∉ all_models w →
  Forall (λ p, po_key p ≠ d_name dA ∧ po_key p ≠ d_name dB)
    (pending_operations w) →
  abstract (d_meta dA) = false → abstract (d_meta dB) = false →
  (∀ f' rf', f' ∈ all_local_fields (d_meta dA) →
             remote_field f' = Some rf' → rf_model rf' = d_name dB) →
  (∀ f', f' ∈ all_local_fields (d_meta dB) → remote_field f' = None) →
  f ∈ all_local_fields (d_meta dA) → remote_field f = Some rf →
  rf_hidden rf = false → rf_accessor_name rf = Some n →
  (∀ f' rf', f' ∈ all_local_fields (d_meta dA) →
             remote_field f' = Some rf' → rf_hidden rf' = false →
             rf_accessor_name rf' = Some n →
             rf_related_accessor_class rf' = rf_related_accessor_class rf) →
  define_model dA w ≫= define_model dB = Ok w' →
  w_attrs w' !! (d_name dB, n)
  = Some (if eligible dA
             && bool_decide (SealableModel ∈ d_name dB :: d_mro dB)
          then seal_cls (rf_related_accessor_class rf)
          else rf_related_accessor_class rf).
Proof.
  intros Hne HA HB Hpending HabsA HabsB Htargets Hleaf Hf Hrf Hvisible Hn
    Hclash.
  assert (Forall (λ p, po_key p ≠ d_name dA) (pending_operations w)) as HpA.
  { eapply Forall_impl; [exact Hpending|]. by intros p [? _]. }
  assert (Forall (λ p, po_key p ≠ d_name dB) (pending_operations w)) as HpB.
  { eapply Forall_impl; [exact Hpending|]. by intros p [_ ?]. }
  rewrite (define_model_target_missing dA (d_name dB)) by done.
  change (Ok ?x ≫= ?k) with (k x). cbv beta.
  rewrite (define_model_awaited dB
             ((λ p, {| po_key := d_name dB; po_more := [];
                       po_op := po_op p |}) <$> model_queue dA)
             (pending_operations w)); simpl; try done.
  2:{ apply not_elem_of_union. split; [|done].
      by apply not_elem_of_singleton. }
  2:{ apply Forall_fmap, Forall_true. by intros p. }
  rewrite <- list_fmap_compose.
  rewrite (list_fmap_ext _ po_op (model_queue dA)) by done.
  intros Hrun.
  match type of Hrun with
  | for_each _ _ ?S = _ =>
      pose proof (model_queue_reverse_accessor dA (d_name dB) S w' rf n)
        as Hops
  end.
  match type of Hops with
  | context [issubclass ?S ?m ?b] =>
      assert (issubclass S m b
              = bool_decide (SealableModel ∈ d_name dB :: d_mro dB)) as Hsub
  end.
  { unfold issubclass, linearization. simpl. by rewrite lookup_insert_eq. }
  rewrite Hsub in Hops.
  apply Hops; try done.
  - intros rf' (f' & ? & ?)%elem_of_relations. by apply (Htargets f').
  - apply elem_of_relations. by exists f.
  - intros rf' (f' & ? & ?)%elem_of_relations. by apply (Hclash f').
Qed.

Lemma relation_to_later_target_witness :
  w_attrs (world_of (define_model SeaLion django_world
                       ≫= define_model Location))
    !! ("Location", "visitors")
  = Some SealableReverseManyToOneDescriptor.
Proof.
  rewrite (relation_to_later_target django_world
             (world_of (define_model SeaLion django_world
                          ≫= define_model Location))
             SeaLion Location
             (ForeignKey "location" "Location" "visitors")
             SeaLion_location "visitors").
  - vm_compute; reflexivity.
  - discriminate.
  - apply not_elem_of_empty.
  - apply not_elem_of_empty.
  - constructor.
  - reflexivity.
  - reflexivity.
  - intros f' rf' Hf Hrf.
    repeat (apply elem_of_cons in Hf as [->|Hf];
            [simpl in Hrf; try discriminate; by injection Hrf as <-|]).
    by apply elem_of_nil in Hf.
  - intros f' Hf.
    repeat (apply elem_of_cons in Hf as [->|Hf]; [reflexivity|]).
    by apply elem_of_nil in Hf.
  - right. right. left.
  - reflexivity.
  - reflexivity.
  - reflexivity.
  - intros f' rf' Hf Hrf _ Hn.
    repeat (apply elem_of_cons in Hf as [->|Hf];
            [simpl in Hrf; try discriminate; injection Hrf as <-;
             try discriminate; reflexivity|]).
    by apply elem_of_nil in Hf.
  - vm_compute; reflexivity.
Defined.

(** ** A relation without accessor name *)

Lemma run_operation_raises op w e :
  run_operation op w = Raise e → e = TypeError.
Proof.
  destruct op as [model rf|model rf]; simpl.
  - unfold contribute_to_related_class.
    destruct (rf_hidden rf); [done|].
    destruct (rf_accessor_name rf); [done|]. by intros [= <-].
  - unfold make_remote_field_descriptor_sealable.
    destruct (negb _); [done|].
    destruct (rf_accessor_name rf) as [accessor|]; [|by intros [= <-]].
    by rewrite make_descriptor_sealable_eq.
Qed.

Lemma for_each_run_operation_raises ops w e :
  for_each run_operation ops w = Raise e → e = TypeError.
Proof.
  revert w. induction ops as [|op ops IH]; intros w; simpl; [done|].
  destruct (run_operation op w) as [w1|e'] eqn:Hop.
  - apply IH.
  - intros [= <-]. by eapply run_operation_raises.
Qed.

Lemma for_each_reaches {A} (body : A → world → result world) l
    (I : world → Prop) x e w :
  (∀ y u u', y ∈ l → body y u = Ok u' → I u → I u') →
  (∀ y u e', y ∈ l → body y u = Raise e' → e' = e) →
  (∀ u, I u → body x u = Raise e) →
  x ∈ l → I w → for_each body l w = Raise e.
Proof.
  intros HI Hraise Hx. revert w. induction l as [|y l IH]; intros w Hin Hw.
  { by apply elem_of_nil in Hin. }
  simpl. destruct (body y w) as [w1|e'] eqn:Hy.
  - change (Ok w1 ≫= for_each body l) with (for_each body l w1).
    apply elem_of_cons in Hin as [->|Hin].
    { rewrite Hx in Hy by done. discriminate. }
    apply IH; [| |done|].
    + intros z u u' Hz. apply HI. by right.
    + intros z u e'' Hz. apply Hraise. by right.
    + eapply HI; [by left|done..].
  - simpl. f_equal. eapply Hraise; [by left|done].
Qed.

Lemma queued_ready mk model fs (P : string → Prop) :
  (∀ f rf, f ∈ fs → remote_field f = Some rf → P (rf_model rf)) →
  Forall (λ p, Forall P (po_more p)) (queued mk model fs).
Proof.
  induction fs as [|f fs IH]; intros H; [constructor|].
  rewrite queued_cons.
  assert (Forall (λ p, Forall P (po_more p)) (queued mk model fs)) as Hrest.
  { apply IH. intros f' rf' ?. apply H. by right. }
  destruct (remote_field f) as [rf|] eqn:Hrf; [|done].
  constructor; [|done]. simpl. constructor; [|constructor].
  apply (H f rf); [by left|done].
Qed.

(** Defining a model whose relations all point to registered models or to
    itself: its operations run when it is registered. *)
Lemma define_model_targets_ready d w :
  d_name d ∉ all_models w →
  abstract (d_meta d) = false →
  Forall (λ p, po_key p ≠ d_name d) (pending_operations w) →
  (∀ f rf, f ∈ all_local_fields (d_meta d) → remote_field f = Some rf →
           rf_model rf ∈ ({[d_name d]} ∪ all_models w : gset string)) →
  define_model d w
  = for_each run_operation (po_op <$> model_queue d)
      {| w_classes :=
           <[d_name d := {| mro := d_mro d; _meta := d_meta d |}]>
             (w_classes w);
         w_attrs := prepare_attrs d (w_attrs w);
         w_related_objects := w_related_objects w;
         all_models := {[d_name d]} ∪ all_models w;
         pending_operations := pending_operations w |}.
Proof.
  intros Hd Habs Hpending Htargets.
  rewrite define_model_eq by done.
  rewrite (do_pending_operations_split _ _ (pending_operations w)
             (model_queue d)); [|done..|apply model_queue_key].
  rewrite resume_ready; [reflexivity|].
  unfold model_queue. apply Forall_app. split.
  - by apply queued_ready.
  - destruct (eligible d); [by apply queued_ready|constructor].
Qed.

(** X11. A model that derives from [SealableModel] cannot be defined when
    one of its local fields has a relation without accessor name (as a
    symmetrical many-to-many on self has) to itself or to a registered
    model that derives from [SealableModel]: once the model is registered
    the deferred half passes [None] to [getattr], and the definition
    raises [TypeError]. *)
Theorem nameless_relation_breaks_definition
    (w : world) (d : model_decl) (f : Field) (rf : RemoteField) :
  d_name d ∉ all_models w →
  abstract (d_meta d) = false →
  Forall (λ p, po_key p ≠ d_name d) (pending_operations w) →
  eligible d = true →
  (∀ f' rf', f' ∈ all_local_fields (d_meta d) → remote_field f' = Some rf' →
             rf_model rf' ∈ ({[d_name d]} ∪ all_models w : gset string)) →
  f ∈ all_local_fields (d_meta d) → remote_field f = Some rf →
  rf_accessor_name rf = None →
  rf_model rf = d_name d ∨ issubclass w (rf_model rf) SealableModel = true →
  define_model d w = Raise TypeError.
Proof.
  intros Hd Habs Hpending Heligible Htargets Hf Hrf Hnameless Htarget.
  rewrite define_model_targets_ready by done.
  rewrite po_op_model_queue, Heligible, for_each_app.
  set (S := {| w_classes := _ |}).
  set (rfs := relations (all_local_fields (d_meta d))).
  assert (issubclass S (rf_model rf) SealableModel = true) as Hsub.
  { destruct (decide (rf_model rf = d_name d)) as [->|Hne].
    - unfold issubclass, linearization, S. simpl. rewrite lookup_insert_eq.
      simpl. unfold eligible in Heligible.
      by apply andb_true_iff in Heligible as [? _].
    - unfold S. rewrite issubclass_new_class by done.
      by destruct Htarget. }
  destruct (for_each run_operation (resolve_related_class (d_name d) <$> rfs) S)
    as [S1|e] eqn:Hfirst.
  2:{ simpl. f_equal. by eapply for_each_run_operation_raises. }
  change (Ok S1 ≫= ?k) with (k S1).
  assert (w_classes S1 = w_classes S) as Hclasses.
  { apply (for_each_invariant run_operation
             (resolve_related_class (d_name d) <$> rfs)
             (λ u, w_classes u = w_classes S) S S1); [|done..].
    intros op u u' (rf' & -> & _)%list_elem_of_fmap Hrun Hu.
    apply run_resolve_classes in Hrun as [-> _]. done. }
  apply (for_each_reaches run_operation
           (make_remote_field_descriptor_sealable_op (d_name d) <$> rfs)
           (λ u, w_classes u = w_classes S)
           (make_remote_field_descriptor_sealable_op (d_name d) rf)).
  - intros op u u' (rf' & -> & _)%list_elem_of_fmap Hrun Hu.
    apply run_remote_attrs in Hrun as [-> _]. done.
  - intros op u e' _ Hrun. by eapply run_operation_raises.
  - intros u Hu. simpl. unfold make_remote_field_descriptor_sealable.
    assert (issubclass u (rf_model rf) SealableModel = true) as ->.
    { unfold issubclass. by rewrite (linearization_ext u S). }
    simpl. by rewrite Hnameless.
  - apply list_elem_of_fmap. exists rf. split; [done|].
    apply elem_of_relations. by exists f.
  - done.
Qed.

Lemma nameless_relation_breaks_definition_witness :
  define_model Friend django_world = Raise TypeError.
Proof.
  apply (nameless_relation_breaks_definition django_world Friend
           {| name := "friends";
              descriptor := Some ManyToManyDescriptor;
              remote_field := Some Friend_friends |} Friend_friends).
  - apply not_elem_of_empty.
  - reflexivity.
  - constructor.
  - vm_compute; reflexivity.
  - intros f' rf' Hf Hrf.
    repeat (apply elem_of_cons in Hf as [->|Hf];
            [simpl in Hrf; try discriminate; injection Hrf as <-;
             apply elem_of_union_l; by apply elem_of_singleton|]).
    by apply elem_of_nil in Hf.
  - right. left.
  - reflexivity.
  - reflexivity.
  - by left.
Defined.
